(** * File server: directory listing and path-safe download

    A shallow embedding of [main.py]: the root resolver
    [get_target_directory], the listing handler [list_files] and the
    download handler [download_file], over a model of the POSIX file
    system and of the [pathlib] operations the handlers call. *)

From Stdlib Require Import ZArith Ascii String Bool Lia.
From Stdlib.Strings Require Import Byte.
From Stdlib Require DecimalString.
From stdpp Require Import base option list gmap strings.

(** ** Python strings *)

Module Str.

(** [s.startswith(pre)] *)
Fixpoint startswith (s pre : string) {struct pre} : bool :=
  match pre, s with
  | EmptyString, _ => true
  | String _ _, EmptyString => false
  | String c pre', String d s' => Ascii.eqb c d && startswith s' pre'
  end.

(** [s.replace(old, new)] for one-character [old] and [new]. *)
Fixpoint replace (old new : ascii) (s : string) : string :=
  match s with
  | EmptyString => EmptyString
  | String c s' =>
      String (if Ascii.eqb c old then new else c) (replace old new s')
  end.

(** [s.split(sep)] for a one-character separator; never empty. *)
Fixpoint split (sep : ascii) (s : string) : list string :=
  match s with
  | EmptyString => [EmptyString]
  | String c s' =>
      if Ascii.eqb c sep then EmptyString :: split sep s'
      else match split sep s' with
           | h :: t => String c h :: t
           | [] => [String c EmptyString]
           end
  end.

(** [sep.join(l)] *)
Fixpoint join (sep : string) (l : list string) : string :=
  match l with
  | [] => EmptyString
  | [x] => x
  | x :: r => x +:+ sep +:+ join sep r
  end.

(** [c in s] *)
Fixpoint contains (c : ascii) (s : string) : bool :=
  match s with
  | EmptyString => false
  | String d s' => Ascii.eqb d c || contains c s'
  end.

(** [''.join(f(c) for c in s)] *)
Fixpoint flat_map (f : ascii -> string) (s : string) : string :=
  match s with
  | EmptyString => EmptyString
  | String c s' => f c +:+ flat_map f s'
  end.

End Str.

(** ** Paths

    An absolute path is the list of its segments below ["/"]; the
    segments of a path that is still to be resolved may be [".."]. *)

Abbreviation path := (list string).

Module PurePath.

Definition sep : ascii := "/"%char.

(** [os.path.isabs] *)
Definition isabs (s : string) : bool := Str.startswith s "/".

(** The parts [PurePosixPath] keeps of a string: empty and ["."]
  components are dropped, [".."] is kept. *)
Definition keep_part (x : string) : bool :=
negb (String.eqb x "") && negb (String.eqb x ".").

Definition parse_parts (s : string) : list string :=
List.filter keep_part (Str.split sep s).

(** [str(p)] of an absolute path. *)
Fixpoint str_segs (p : path) : string :=
match p with
| [] => EmptyString
| x :: r => "/" +:+ x +:+ str_segs r
end.

Definition str (p : path) : string :=
match p with [] => "/" | _ => str_segs p end.

(** [str(p)] of a relative path: ["."] when it has no segment. *)
Definition str_rel (p : list string) : string :=
match p with [] => "." | _ => Str.join "/" p end.

(** [p.name]: the final segment, empty for the root. *)
Definition name (p : path) : string := List.last p EmptyString.

(** [p.parent]; the parent of the root is the root. *)
Definition parent (p : path) : path := removelast p.

(** [base / s]: an absolute [s] replaces [base]. *)
Definition joinpath (base : path) (s : string) : list string :=
if isabs s then parse_parts s else base ++ parse_parts s.

(** [p.relative_to(base)], [None] standing for its [ValueError]. *)
Fixpoint relative_to (p base : path) {struct base}
: option (list string) :=
match base, p with
| [], _ => Some p
| b :: base', x :: p' =>
    if String.eqb b x then relative_to p' base' else None
| _ :: _, [] => None
end.

(** Segment-wise containment: [p] is [base] or lies below it. *)
Fixpoint is_under (base p : path) {struct base} : bool :=
match base, p with
| [], _ => true
| b :: base', x :: p' => String.eqb b x && is_under base' p'
| _ :: _, [] => false
end.

(** [os.path.normpath] of an absolute path, from the components
  [cur] it has kept: [".."] drops the component before it and is
  itself dropped at the root. *)
Fixpoint normpath_from (cur : path) (todo : list string) : path :=
match todo with
| [] => cur
| x :: rest =>
    if String.eqb x ".." then normpath_from (parent cur) rest
    else normpath_from (cur ++ [x]) rest
end.

Definition normpath (p : list string) : path := normpath_from [] p.

End PurePath.

(** ** The file system *)

Inductive node :=
| File (data : list byte) (ctime mtime : Z)
| Dir (ctime mtime : Z)
| Symlink (target : string).

(** The tree as a finite map from the absolute path of every entry
    below ["/"] to its node; ["/"] itself always is a directory.
    Every directory can be searched and read by the server: access
    rights are not part of the model, nor is the limit [PATH_MAX] on
    the length of a whole path. *)
Abbreviation FS := (gmap path node).

Definition root_node : node := Dir 0 0.

(** The node stored at a path, its last component not followed. *)
Definition node_at (fs : FS) (p : path) : option node :=
  match p with [] => Some root_node | _ => fs !! p end.

Definition is_dir_node (o : option node) : bool :=
  match o with Some (Dir _ _) => true | _ => false end.

Definition is_reg_node (o : option node) : bool :=
  match o with Some (File _ _ _) => true | _ => false end.

Inductive errno :=
  ENOENT | ENOTDIR | ELOOP | EEXIST | ENAMETOOLONG | EOVERFLOW.

(** The links the kernel follows in one lookup before it gives up
    with [ELOOP]. *)
Definition MAXSYMLINKS : nat := 40.

(** The bytes a file name may have. *)
Definition NAME_MAX : nat := 255.

Definition too_long (x : string) : bool :=
  Nat.ltb NAME_MAX (String.length x).

(** The kernel's path lookup, one component at a time from the
    directory [cur] reached so far.  The directory is searched for
    the component: [".."] steps to its parent, a name longer than
    [NAME_MAX] is refused, a symbolic link is replaced by the
    components of its target, and what is not there is [ENOENT]. *)
Fixpoint walk (fs : FS) (fuel : nat) : path -> list string -> errno + path :=
  fix go (cur : path) (todo : list string) {struct todo} : errno + path :=
    match todo with
    | [] => inr cur
    | x :: rest =>
        if negb (is_dir_node (node_at fs cur)) then inl ENOTDIR
        else if String.eqb x ".." then go (PurePath.parent cur) rest
        else if too_long x then inl ENAMETOOLONG
        else
          match fs !! (cur ++ [x]) with
          | Some (Symlink target) =>
              if String.eqb target "" then inl ENOENT
              else
                match fuel with
                | O => inl ELOOP
                | S fuel' =>
                    walk fs fuel'
                      (if PurePath.isabs target then [] else cur)
                      (PurePath.parse_parts target ++ rest)
                end
          | Some _ => go (cur ++ [x]) rest
          | None => inl ENOENT
          end
    end.

(** The kernel's lookup of an absolute path, links followed. *)
Definition namei (fs : FS) (p : list string) : errno + path :=
  walk fs MAXSYMLINKS [] p.

Inductive file_type := S_IFREG | S_IFDIR | S_IFLNK.

Record stat_result := {
  st_mode : file_type;
  st_size : Z;
  st_ctime : Z;
  st_mtime : Z
}.

Definition DIR_SIZE : Z := 4096.

Definition stat_of (n : node) : stat_result :=
  match n with
  | File data c m =>
      {| st_mode := S_IFREG; st_size := Z.of_nat (length data);
         st_ctime := c; st_mtime := m |}
  | Dir c m =>
      {| st_mode := S_IFDIR; st_size := DIR_SIZE; st_ctime := c; st_mtime := m |}
  | Symlink t =>
      {| st_mode := S_IFLNK; st_size := Z.of_nat (String.length t);
         st_ctime := 0; st_mtime := 0 |}
  end.

(** The system call [stat(p)] *)
Definition os_stat (fs : FS) (p : path) : errno + stat_result :=
  match namei fs p with
  | inl e => inl e
  | inr q =>
      match node_at fs q with
      | Some n => inr (stat_of n)
      | None => inl ENOENT
      end
  end.

Definition S_ISREG (m : file_type) : bool :=
  match m with S_IFREG => true | _ => false end.

Definition S_ISDIR (m : file_type) : bool :=
  match m with S_IFDIR => true | _ => false end.

(** The bytes [open(p, "rb").read()] gives. *)
Definition read_bytes (fs : FS) (p : path) : option (list byte) :=
  match namei fs p with
  | inr q => match node_at fs q with
             | Some (File data _ _) => Some data
             | _ => None
             end
  | inl _ => None
  end.


(** The entries below the directory stored at [d], each by its path
    relative to [d], in the order the directory walk meets them. *)
Definition below (fs : FS) (d : path) : list (list string) :=
  omap (fun q => match PurePath.relative_to q d with
                 | Some (x :: rel) => Some (x :: rel)
                 | _ => None
                 end)
       (fst <$> map_to_list fs).

(** [os.scandir], drained by the recursive walk of [rglob('*')]: the
    entries below the directory [p] names, each reported under [p].
    Directories that are symbolic links are listed but not entered. *)
Definition scan_tree (fs : FS) (p : path) : errno + list path :=
  match namei fs p with
  | inl e => inl e
  | inr d =>
      if is_dir_node (node_at fs d) then inr (app p <$> below fs d)
      else inl ENOTDIR
  end.

(** A segment that names something: not empty, not ["."] or [".."],
    without ["/"]. *)
Definition valid_name (x : string) : bool :=
  PurePath.keep_part x && negb (String.eqb x "..")
  && negb (Str.contains PurePath.sep x).

(** The text holds a NUL byte. *)
Definition has_nul (x : string) : bool := Str.contains "000"%char x.

(** A name a directory entry can have: a valid segment without NUL
    byte, of [NAME_MAX] bytes at most. *)
Definition entry_name (x : string) : bool :=
  valid_name x && negb (has_nul x) && negb (too_long x).

(** Well-formed trees: every entry has a name an entry can have and
    lies in a directory. *)
Definition fs_wf (fs : FS) : Prop :=
  forall p n, fs !! p = Some n ->
    entry_name (PurePath.name p) = true
    /\ is_dir_node (node_at fs (PurePath.parent p)) = true.

Definition fs_wfb (fs : FS) : bool :=
  forallb (fun pn => entry_name (PurePath.name (fst pn))
                     && is_dir_node (node_at fs (PurePath.parent (fst pn))))
          (map_to_list fs).

(** ** Python exceptions *)

Inductive exn :=
| HTTPException (status_code : Z) (detail : string)
| OSError (e : errno) (filename : string)
| OSError_errno (e : errno)
    (** an [OSError] that names no file *)
| OverflowError (msg : string)
| RuntimeError (msg : string)
| ValueError (msg : string).

Definition strerror (e : errno) : string :=
  match e with
  | ENOENT => "[Errno 2] No such file or directory"
  | ENOTDIR => "[Errno 20] Not a directory"
  | ELOOP => "[Errno 40] Too many levels of symbolic links"
  | EEXIST => "[Errno 17] File exists"
  | ENAMETOOLONG => "[Errno 36] File name too long"
  | EOVERFLOW => "[Errno 75] Value too large for defined data type"
  end.

Definition hex_digit (n : N) : ascii :=
  match n with
  | 0 => "0" | 1 => "1" | 2 => "2" | 3 => "3" | 4 => "4" | 5 => "5"
  | 6 => "6" | 7 => "7" | 8 => "8" | 9 => "9" | 10 => "a" | 11 => "b"
  | 12 => "c" | 13 => "d" | 14 => "e" | _ => "f"
  end%N%char.

(** One character of [repr(s)], [quote] being the quote chosen for
    [s]: the backslash and the quote are escaped, control characters
    are written [\n], [\r], [\t] or [\xNN]. *)
Definition repr_char (quote c : ascii) : string :=
  let n := N_of_ascii c in
  if Ascii.eqb c "\" then "\\"
  else if Ascii.eqb c quote then String "\" (String quote "")
  else if Ascii.eqb c "010" then "\n"
  else if Ascii.eqb c "013" then "\r"
  else if Ascii.eqb c "009" then "\t"
  else if (n <? 32)%N || (n =? 127)%N
       then String "\" (String "x" (String (hex_digit (n / 16))
                                      (String (hex_digit (n mod 16)) "")))
  else String c "".

(** [repr(s)]: between single quotes, or between double quotes when
    [s] holds a single quote and no double quote. *)
Definition repr (s : string) : string :=
  let quote : ascii :=
    if Str.contains "'" s && negb (Str.contains "034" s)
    then "034"%char else "'"%char in
  String quote (Str.flat_map (repr_char quote) s) +:+ String quote "".

Definition str_Z (z : Z) : string :=
  DecimalString.NilZero.string_of_int (Z.to_int z).

(** [str(e)] *)
Definition str_exn (e : exn) : string :=
  match e with
  | HTTPException c d => str_Z c +:+ ": " +:+ d
  | OSError e f => strerror e +:+ ": " +:+ repr f
  | OSError_errno e => strerror e
  | OverflowError m => m
  | RuntimeError m => m
  | ValueError m => m
  end.

(** ** The [os] module *)

Definition embedded_null : exn := ValueError "embedded null byte".

(** [os.stat(p)]: a path holding a NUL byte is refused before the
    system is called. *)
Definition posix_stat (fs : FS) (p : path) : exn + stat_result :=
  if existsb has_nul p then inl embedded_null
  else match os_stat fs p with
       | inl e => inl (OSError e (PurePath.str p))
       | inr st => inr st
       end.


(** [os.scandir(p)], drained as [scan_tree] has it; [rglob] comes
    here only with a path [is_dir] accepted, which holds no NUL. *)
Definition posix_scan (fs : FS) (p : path) : exn + list path :=
  match scan_tree fs p with
  | inl e => inl (OSError e (PurePath.str p))
  | inr l => inr l
  end.

(** The links [os.path.realpath] has met: [None] for a link that
    is being resolved, the resolved path for one that has been. *)
Abbreviation seen_links := (gmap path (option path)).

(** What [_joinrealpath] returns. *)
Inductive joined :=
| Resolved (q : path) (seen : seen_links)
    (** [(q, True)], and the links met *)
| Unresolved (q : list string)
    (** [(q, False)]: a link loop was met; [q] is the path up to that
        link followed by what was left to resolve, unchanged *)
| Refused
    (** [lstat] raised [ValueError]: a NUL byte in the name *)
| Exhausted.
    (** the links nest deeper than [fuel] *)

(** [posixpath._joinrealpath(cur, rest, strict=False, seen)].  Each
    component is looked at with [lstat] after the resolved prefix
    [cur], which holds no link, so that [lstat] finds what the tree
    stores there; what [lstat] cannot find is kept as it is written.
    A link met for the first time has its target resolved from its
    directory, or from the root for an absolute target.  [fuel]
    bounds the links being resolved inside one another. *)
Fixpoint _joinrealpath (fs : FS) (fuel : nat)
  : path -> list string -> seen_links -> joined :=
  fix go (cur : path) (rest : list string) (seen : seen_links)
         {struct rest} : joined :=
    match rest with
    | [] => Resolved cur seen
    | name :: rest =>
        if String.eqb name ".." then go (PurePath.parent cur) rest seen
        else if has_nul name then Refused
        else
          let newpath := cur ++ [name] in
          match fs !! newpath with
          | Some (Symlink target) =>
              match seen !! newpath with
              | Some (Some q) => go q rest seen
              | Some None => Unresolved (newpath ++ rest)
              | None =>
                  match fuel with
                  | O => Exhausted
                  | S fuel' =>
                      match _joinrealpath fs fuel'
                              (if PurePath.isabs target then [] else cur)
                              (PurePath.parse_parts target)
                              (<[ newpath := None ]> seen) with
                      | Resolved q seen' =>
                          go q rest (<[ newpath := Some q ]> seen')
                      | Unresolved q => Unresolved (q ++ rest)
                      | Refused => Refused
                      | Exhausted => Exhausted
                      end
                  end
              end
          | _ => go newpath rest seen
          end
    end.

(** [os.path.realpath(p, strict=False)] of an absolute path.  No more
    links are ever being resolved at once than the tree has entries. *)
Definition posixpath_realpath (fs : FS) (p : list string) : exn + path :=
  match _joinrealpath fs (S (size fs)) [] p ∅ with
  | Resolved q _ => inr (PurePath.normpath q)
  | Unresolved q => inr (PurePath.normpath q)
  | Refused => inl embedded_null
  | Exhausted => inl (RuntimeError "maximum recursion depth exceeded")
  end.

(** What [Path(p).resolve()] returns, as a function of the tree:
    [os.path.realpath(p)], then a [stat] of the result, by which a
    link loop that [realpath] has left in the path is found and
    reported as [RuntimeError]; another failure of that [stat] is
    passed over. *)
Definition realpath (fs : FS) (p : list string) : exn + path :=
  match posixpath_realpath fs p with
  | inl e => inl e
  | inr q =>
      match posix_stat fs q with
      | inl (OSError ELOOP filename) =>
          inl (RuntimeError ("Symlink loop from " +:+ repr filename))
      | inl (OSError _ _) | inl (OSError_errno _) => inr q
      | inl e => inl e
      | inr _ => inr q
      end
  end.

(** ** The handlers' monad *)

(** The world a handler runs in: the file system now, and what other
    processes do to it after each of the handler's system calls. *)
Record World := { w_fs : FS; w_env : list (FS -> FS) }.

Definition tick (w : World) : World :=
  match w_env w with
  | [] => w
  | f :: env => {| w_fs := f (w_fs w); w_env := env |}
  end.

(** A file system nobody else touches. *)
Definition quiet (fs : FS) : World := {| w_fs := fs; w_env := [] |}.

Definition M (A : Type) : Type := World -> (exn + A) * World.

Definition ret {A} (a : A) : M A := fun w => (inr a, w).

Definition raise {A} (e : exn) : M A := fun w => (inl e, w).

Definition bind {A B} (m : M A) (k : A -> M B) : M B :=
  fun w => match m w with
           | (inl e, w') => (inl e, w')
           | (inr a, w') => k a w'
           end.

Definition try_except {A} (m : M A) (handler : exn -> M A) : M A :=
  fun w => match m w with
           | (inl e, w') => handler e w'
           | (inr a, w') => (inr a, w')
           end.

Declare Scope py_scope.
Delimit Scope py_scope with py.
Notation "x <- m ;; k" := (bind m (fun x => k))
  (at level 100, m at next level, right associativity) : py_scope.
Notation "'do' m ;; k" := (bind m (fun _ => k))
  (at level 100, m at next level, right associativity) : py_scope.
Local Open Scope py_scope.

(** A call that leaves the file system alone: its value, or the
    exception it raises. *)
Definition of_result {A} (r : exn + A) : M A := fun w => (r, w).

(** One call into the [os] module that reads the file system. *)
Definition sys_read {A} (f : FS -> exn + A) : M A :=
  fun w => (f (w_fs w), tick w).


(** [for x in l: acc = body(acc, x)] *)
Fixpoint for_each {A B} (l : list A) (body : B -> A -> M B) (acc : B) : M B :=
  match l with
  | [] => ret acc
  | x :: l' => acc' <- body acc x ;; for_each l' body acc'
  end.

(** ** [pathlib.Path] *)

Module Path.

(** The [errno]s [pathlib] takes to mean "not there". *)
Definition _ignore_error (e : errno) : bool :=
  match e with
  | ENOENT | ENOTDIR | ELOOP => true
  | EEXIST | ENAMETOOLONG | EOVERFLOW => false
  end.

(** [p.stat()] *)
Definition stat (p : path) : M stat_result :=
  sys_read (fun fs => posix_stat fs p).

(** What [exists], [is_file] and [is_dir] do when [stat] raises. *)
Definition not_there (e : exn) : M bool :=
  match e with
  | OSError en _ | OSError_errno en =>
      if _ignore_error en then ret false else raise e
  | ValueError _ => ret false
  | _ => raise e
  end.

(** [p.exists()] *)
Definition exists_ (p : path) : M bool :=
  try_except (do stat p ;; ret true) not_there.

(** [p.is_file()] *)
Definition is_file (p : path) : M bool :=
  try_except (st <- stat p ;; ret (S_ISREG (st_mode st))) not_there.

(** [p.is_dir()] *)
Definition is_dir (p : path) : M bool :=
  try_except (st <- stat p ;; ret (S_ISDIR (st_mode st))) not_there.

(** [p.resolve()] of the absolute path with components [p]. *)
Definition resolve (p : list string) : M path :=
  sys_read (fun fs => realpath fs p).

(** [p.relative_to(base)] *)
Definition relative_to (p base : path) : M (list string) :=
  match PurePath.relative_to p base with
  | Some rel => ret rel
  | None =>
      raise (ValueError
               (repr (PurePath.str p) +:+ " is not in the subpath of "
                +:+ repr (PurePath.str base)
                +:+ " OR one path is relative and the other is absolute."))
  end.

(** [list(p.rglob('*'))]: nothing when [p] is not a directory;
    otherwise the directory is scanned, and a failure of that scan
    other than for lack of permission is raised. *)
Definition rglob (p : path) : M (list path) :=
  b <- is_dir p ;;
  if negb b then ret []
  else sys_read (fun fs => posix_scan fs p).





End Path.

(** ** Library functions the handlers take as given *)

Class Platform := {
  (** first component of [mimetypes.guess_type(name)] *)
  guess_type : string -> option string;
  (** [datetime.fromtimestamp(t).isoformat()], or the exception
      [fromtimestamp] raises for a time it cannot represent *)
  isoformat : Z -> exn + string
}.

(** ** The application *)

(** One element of the ["files"] array. *)
Record file_info := {
  name : string;
  type : string;
  size_bytes : Z;
  created_at : string;
  modified_at : string;
  subdirectory : string
}.

Inductive response :=
| JSONResponse (files : list file_info)
| FileResponse (path : path) (filename : string) (media_type : string)
| ErrorResponse (status_code : Z) (detail : string).

Definition status_of (r : response) : Z :=
  match r with
  | JSONResponse _ | FileResponse _ _ _ => 200
  | ErrorResponse c _ => c
  end.

(** The body a [FileResponse] streams. *)
Definition body_of (fs : FS) (r : response) : option (list byte) :=
  match r with
  | FileResponse p _ _ => read_bytes fs p
  | _ => None
  end.



Section Handlers.
Context `{Platform}.
Variable target_directory : path.

(** The body of the loop of [list_files]. *)
Definition list_files_body (files_info : list file_info) (file_path : path)
  : M (list file_info) :=
  b <- Path.is_file file_path ;;
  if b then
    stat <- Path.stat file_path ;;
    let size := st_size stat in
    created_at <- of_result (isoformat (st_ctime stat)) ;;
    modified_at <- of_result (isoformat (st_mtime stat)) ;;
    let mime_type :=
      match guess_type (PurePath.name file_path) with
      | Some t => t
      | None => "application/octet-stream"
      end in
    relative_path <- Path.relative_to file_path target_directory ;;
    let parent := PurePath.parent relative_path in
    let subdirectory :=
      if negb (String.eqb (PurePath.str_rel parent) ".")
      then Str.replace "\" "/" (PurePath.str_rel parent)
      else "" in
    ret (files_info ++
           [{| name := PurePath.name file_path;
               type := mime_type;
               size_bytes := size;
               created_at := created_at;
               modified_at := modified_at;
               subdirectory := subdirectory |}])
  else ret files_info.

(** [GET /files] *)
Definition list_files : M response :=
  try_except
    (paths <- Path.rglob target_directory ;;
     files_info <- for_each paths list_files_body [] ;;
     ret (JSONResponse files_info))
    (fun e => raise (HTTPException 500 (str_exn e))).

(** [GET /files/{file_path:path}] *)
Definition download_file (file_path : string) : M response :=
  try_except
    (requested_path <-
       Path.resolve (PurePath.joinpath target_directory file_path) ;;
     if negb (Str.startswith (PurePath.str requested_path)
                             (PurePath.str target_directory))
     then raise (HTTPException 400 "Caminho inválido")
     else
       missing <- (e <- Path.exists_ requested_path ;;
                   if negb e then ret true
                   else f <- Path.is_file requested_path ;; ret (negb f)) ;;
       if missing
       then raise (HTTPException 404 "Arquivo não encontrado")
       else ret (FileResponse requested_path
                              (PurePath.name requested_path)
                              "application/octet-stream"))
    (fun e =>
       match e with
       | HTTPException _ _ => raise e
       | _ => raise (HTTPException 500 (str_exn e))
       end).

End Handlers.

(** What the client receives: the handler's response, or the error
    response the framework makes of the exception it raised. *)
Definition serve (handler : M response) (w : World) : response :=
  match fst (handler w) with
  | inr r => r
  | inl (HTTPException c d) => ErrorResponse c d
  | inl _ => ErrorResponse 500 "Internal Server Error"
  end.

(** ** Vocabulary of the specification *)

(** What a test of a path comes to: the answer it returns, or the
    exception it raises. *)
Inductive probe :=
| Returned (b : bool)
| Raised (e : exn).

Coercion Returned : bool >-> probe.

(** A test made of one [stat], links followed: a path that is not
    there, one that leads through something that is no directory or
    through a link loop, and one holding a NUL byte answer [False];
    any other failure of the [stat] is raised. *)
Definition probe_of (f : stat_result -> bool) (fs : FS) (p : path) : probe :=
  if existsb has_nul p then Returned false
  else match os_stat fs p with
       | inr st => Returned (f st)
       | inl ENOENT | inl ENOTDIR | inl ELOOP => Returned false
       | inl e => Raised (OSError e (PurePath.str p))
       end.

(** The path exists, links followed. *)
Definition exists_at (fs : FS) (p : path) : probe :=
  probe_of (fun _ => true) fs p.

(** The path names a regular file, links followed. *)
Definition is_file_at (fs : FS) (p : path) : probe :=
  probe_of (fun st => S_ISREG (st_mode st)) fs p.

(** The path names a directory, links followed. *)
Definition is_dir_at (fs : FS) (p : path) : probe :=
  probe_of (fun st => S_ISDIR (st_mode st)) fs p.

(** The outcome of a test as that of a call: a value, or an
    exception. *)
Definition outcome (pr : probe) : exn + bool :=
  match pr with
  | Returned b => inr b
  | Raised e => inl e
  end.















(** What the walk of [rglob] from [base] yields when nothing changes
    under it, each entry by its path relative to [base]. *)
Definition walked (base : path) (fs : FS) : list (list string) :=
  match is_dir_at fs base, namei fs base with
  | Returned true, inr d => below fs d
  | _, _ => []
  end.

(** The path is an entry of the tree that is not a symbolic link. *)
Definition stored (fs : FS) (p : path) : bool :=
  is_dir_node (node_at fs p) || is_reg_node (node_at fs p).




(** A component of a path still to be resolved. *)
Definition segment_ok (x : string) : Prop := x = ".." \/ valid_name x = true.


(** No entry lies below [d]. *)
Definition emptyb (fs : FS) (d : path) : bool :=
  match below fs d with [] => true | _ :: _ => false end.

(** The path is written without [".."], and no symbolic link lies
    on it. *)
Definition plain (fs : FS) (p : path) : Prop :=
  Forall (fun x => valid_name x = true) p
  /\ forall pre suf t, p = pre ++ suf -> node_at fs pre <> Some (Symlink t).


(** Every link [seen] has resolved has a path made of valid
    segments. *)
Definition seen_valid (seen : seen_links) : Prop :=
  forall l q, seen !! l = Some (Some q) ->
    Forall (fun x => valid_name x = true) q.





(** ** Sample data *)

Module Sample.

(** The last extension of a file name. *)
Definition ext_of (s : string) : string :=
  match Str.split "." s with
  | [] | [_] => ""
  | parts => List.last parts ""
  end.

(** A few rows of the table of [mimetypes]. *)
Definition types_map : list (string * string) :=
  [("pdf", "application/pdf"); ("txt", "text/plain");
   ("html", "text/html"); ("json", "application/json");
   ("png", "image/png")].

Fixpoint assoc (k : string) (l : list (string * string)) : option string :=
  match l with
  | [] => None
  | (k', v) :: l' => if String.eqb k k' then Some v else assoc k l'
  end.

(** The civil date, year, month and day, of the day [days] after
    1970-01-01. *)
Definition civil (days : Z) : Z * Z * Z :=
  (let z := days + 719468 in
   let era := z / 146097 in
   let doe := z - era * 146097 in
   let yoe := (doe - doe / 1460 + doe / 36524 - doe / 146096) / 365 in
   let doy := doe - (365 * yoe + yoe / 4 - yoe / 100) in
   let mp := (5 * doy + 2) / 153 in
   let d := doy - (153 * mp + 2) / 5 + 1 in
   let m := if mp <? 10 then mp + 3 else mp - 9 in
   (yoe + era * 400 + (if m <=? 2 then 1 else 0), m, d))%Z.

(** [z] in decimal, with zeros in front up to [width] digits. *)
Definition pad (width : nat) (z : Z) : string :=
  let s := str_Z z in
  string_of_list_ascii (repeat "0"%char (width - String.length s)) +:+ s.

Definition out_of_range (year : Z) : exn :=
  ValueError ("year " +:+ str_Z year +:+ " is out of range").

(** The float nearest to the whole number [t], the even one of two
    that are as near: what [st_ctime] and [st_mtime] hold for a time
    of [t] seconds. *)
Definition nearest_float (t : Z) : Z :=
  (let a := Z.abs t in
   if a <? 2 ^ 53 then t
   else
     let ulp := 2 ^ (Z.log2 a - 52) in
     let n := a / ulp in
     let r := a mod ulp in
     let up := if 2 * r =? ulp then Z.odd n else ulp <? 2 * r in
     Z.sgn t * (if up then n + 1 else n) * ulp)%Z.

(** A C [int] after an addition that overflowed. *)
Definition wrap_int (z : Z) : Z := ((z + 2 ^ 31) mod 2 ^ 32 - 2 ^ 31)%Z.

(** [datetime.fromtimestamp(t).isoformat()] for the float of a whole
    number of seconds, the local time being UTC.  The time has to fit
    a [time_t], its year a C [int] counted from 1900, and that year
    has to be one of 1 to 9999; a time whose day before lies before
    year 1 is refused as well. *)
Definition utc_isoformat (t : Z) : exn + string :=
  (let t := nearest_float t in
   if (t <? - 2 ^ 63) || (2 ^ 63 <? t)
   then inl (OverflowError "timestamp out of range for platform time_t")
   else
     let '(y, m, d) := civil (t / 86400) in
     let '(y0, _, _) := civil (t / 86400 - 1) in
     if (y - 1900 <? - 2 ^ 31) || (2 ^ 31 - 1 <? y - 1900)
     then inl (OSError_errno EOVERFLOW)
     else if (wrap_int y <? 1) || (9999 <? wrap_int y)
     then inl (out_of_range (wrap_int y))
     else if y0 <? 1 then inl (out_of_range y0)
     else
       let s := t mod 86400 in
       inr (pad 4 y +:+ "-" +:+ pad 2 m +:+ "-" +:+ pad 2 d +:+ "T"
            +:+ pad 2 (s / 3600) +:+ ":" +:+ pad 2 (s mod 3600 / 60)
            +:+ ":" +:+ pad 2 (s mod 60)))%Z.

#[export] Instance platform : Platform := {|
  guess_type nm := assoc (ext_of nm) types_map;
  isoformat := utc_isoformat
|}.

Definition root : path := ["data"; "foo"].

Definition secret : list byte := [x73; x33; x63; x72; x33; x74]%byte.

(** The served directory [/data/foo], its sibling [/data/foobar],
    and [/etc/passwd]. *)
Definition fs : FS :=
  list_to_map
    [(["data"], Dir 1 1);
     (["data"; "foo"], Dir 1 1);
     (["data"; "foo"; "report.pdf"], File [x25; x50; x44; x46]%byte 10 11);
     (["data"; "foo"; "data.xyz123"], File [x00]%byte 12 13);
     (["data"; "foo"; "sub"], Dir 2 2);
     (["data"; "foo"; "sub"; "dir"], Dir 3 3);
     (["data"; "foo"; "sub"; "dir"; "name.txt"], File [x68; x69]%byte 14 15);
     (["data"; "foobar"], Dir 1 1);
     (["data"; "foobar"; "secret.txt"], File secret 20 21);
     (["etc"], Dir 0 0);
     (["etc"; "passwd"], File [x72; x6f; x6f; x74]%byte 0 0)].

(** [fs] with a link in the root to the sibling's file. *)
Definition fs_link_sibling : FS :=
  <[ ["data"; "foo"; "link"] := Symlink "/data/foobar/secret.txt" ]> fs.


(** A root with a directory whose name holds a backslash. *)
Definition fs_backslash : FS :=
  list_to_map
    [(["data"], Dir 1 1);
     (["data"; "foo"], Dir 1 1);
     (["data"; "foo"; "a\b"], Dir 2 2);
     (["data"; "foo"; "a\b"; "x.txt"], File [x78]%byte 3 4)].

(** A root holding two files. *)
Definition fs_two : FS :=
  list_to_map
    [(["srv"], Dir 1 1);
     (["srv"; "files"], Dir 1 1);
     (["srv"; "files"; "a.txt"], File [x61]%byte 2 3);
     (["srv"; "files"; "b.txt"], File [x62; x62]%byte 4 5)].

Definition srv : path := ["srv"; "files"].

(** [b.txt], the first entry the walk yields, is removed right
    after the handler found it to be a regular file. *)
Definition race : World :=
  {| w_fs := fs_two;
     w_env := [id; id; delete ["srv"; "files"; "b.txt"]] |}.

(** [b.txt] is removed after the walk, before the handler looks at
    it. *)
Definition race_early : World :=
  {| w_fs := fs_two;
     w_env := [id; delete ["srv"; "files"; "b.txt"]] |}.

(** An empty root that another process removes right after the
    handler's first system call. *)
Definition root_removed : World :=
  {| w_fs := list_to_map [(["srv"], Dir 1 1); (["srv"; "files"], Dir 1 1)];
     w_env := [delete ["srv"; "files"]] |}.

(** A machine on which the root is still to be made. *)
Definition home : FS :=
  list_to_map [(["home"], Dir 0 0); (["home"; "app"], Dir 0 0)].

Definition cwd : path := ["home"; "app"].

(** The files of a listing, none when the handler failed. *)
Definition listing (base : path) (fs : FS) : list file_info :=
  match serve (list_files base) (quiet fs) with
  | JSONResponse files => files
  | _ => []
  end.



Definition a_txt : file_info :=
  {| name := "a.txt"; type := "text/plain"; size_bytes := 1;
     created_at := "1970-01-01T00:00:02";
     modified_at := "1970-01-01T00:00:03";
     subdirectory := "" |}.

(** The record of [x.txt] in the directory named with a backslash. *)
Definition x_txt : file_info :=
  {| name := "x.txt"; type := "text/plain"; size_bytes := 1;
     created_at := "1970-01-01T00:00:03";
     modified_at := "1970-01-01T00:00:04";
     subdirectory := "a/b" |}.


(** A root that is there and holds nothing. *)
Definition fs_empty_root : FS :=
  list_to_map [(["srv"], Dir 1 1); (["srv"; "files"], Dir 1 1)].




(** A file name of 256 bytes, one more than [NAME_MAX]. *)
Definition long_name : string :=
  string_of_list_ascii (repeat "a"%char 256).


(** [fs] with a chain of 41 links in the root, the last one to
    [report.pdf]. *)
Definition fs_chain : FS :=
  foldr (fun k acc =>
           <[ Sample.root ++ ["l" +:+ str_Z (Z.of_nat k)] :=
                Symlink (if Nat.eqb k 40 then "report.pdf"
                         else "l" +:+ str_Z (Z.of_nat (S k))) ]> acc)
        fs (seq 0 41).

End Sample.

(** * Properties *)

(** ** Strings and paths *)

Section Strings.

Lemma append_nil_l (s : string) : "" +:+ s = s.
Proof. reflexivity. Qed.

Lemma append_cons (c : ascii) (a b : string) :
  String c a +:+ b = String c (a +:+ b).
Proof. reflexivity. Qed.

Lemma append_nil_r (s : string) : s +:+ "" = s.
Proof.
  induction s as [|c s IH]; [done|]. by rewrite append_cons, IH.
Qed.

Lemma append_assoc (a b c : string) : (a +:+ b) +:+ c = a +:+ (b +:+ c).
Proof.
  induction a as [|x a IH]; [done|]. by rewrite !append_cons, IH.
Qed.

Lemma startswith_append (a b : string) : Str.startswith (a +:+ b) a = true.
Proof.
  induction a as [|c a IH]; [done|].
  rewrite append_cons; simpl. by rewrite Ascii.eqb_refl.
Qed.

Lemma startswith_refl (a : string) : Str.startswith a a = true.
Proof. rewrite <- (append_nil_r a) at 1. apply startswith_append. Qed.

Lemma str_segs_app (p q : path) :
  PurePath.str_segs (p ++ q) = PurePath.str_segs p +:+ PurePath.str_segs q.
Proof.
  induction p as [|x p IH]; simpl; [done|].
  by rewrite IH, !append_assoc.
Qed.


Lemma is_under_inv (base p : path) :
  PurePath.is_under base p = true -> exists rel, p = base ++ rel.
Proof.
  revert p; induction base as [|b base IH]; intros p Hp; simpl in *.
  - by exists p.
  - destruct p as [|x p]; [done|].
    apply andb_true_iff in Hp as [Hb Hp].
    apply String.eqb_eq in Hb as ->.
    destruct (IH _ Hp) as [rel ->]. by exists rel.
Qed.

(** What lies below a directory passes the prefix test on strings. *)
Lemma startswith_under (base p : path) :
  PurePath.is_under base p = true ->
  Str.startswith (PurePath.str p) (PurePath.str base) = true.
Proof.
  intros [rel ->]%is_under_inv.
  destruct base as [|b base].
  - destruct rel; done.
  - change (PurePath.str ((b :: base) ++ rel))
      with (PurePath.str_segs ((b :: base) ++ rel)).
    rewrite str_segs_app. apply startswith_append.
Qed.

Lemma relative_to_app (base rel : path) :
  PurePath.relative_to (base ++ rel) base = Some rel.
Proof.
  induction base as [|b base IH]; simpl; [by destruct rel|].
  by rewrite String.eqb_refl.
Qed.

Lemma relative_to_inv (p base rel : path) :
  PurePath.relative_to p base = Some rel -> p = base ++ rel.
Proof.
  revert p; induction base as [|b base IH]; intros p Hp; simpl in *.
  - by injection Hp as <-.
  - destruct p as [|x p]; [done|].
    destruct (String.eqb b x) eqn:Hb; [|done].
    apply String.eqb_eq in Hb as ->. by rewrite (IH _ Hp).
Qed.

Lemma name_snoc (p : path) (x : string) : PurePath.name (p ++ [x]) = x.
Proof. apply last_last. Qed.

Lemma parent_snoc (p : path) (x : string) : PurePath.parent (p ++ [x]) = p.
Proof. apply removelast_last. Qed.





Lemma valid_name_inv (x : string) :
  valid_name x = true ->
  x <> "" /\ x <> "." /\ x <> ".." /\ Str.contains PurePath.sep x = false.
Proof.
  unfold valid_name, PurePath.keep_part.
  rewrite !andb_true_iff, !negb_true_iff, !String.eqb_neq. tauto.
Qed.


Lemma valid_name_not_dotdot (x : string) :
  valid_name x = true -> String.eqb x ".." = false.
Proof. intros (_ & _ & ? & _)%valid_name_inv. by apply String.eqb_neq. Qed.

Lemma entry_name_inv (x : string) :
  entry_name x = true ->
  valid_name x = true /\ has_nul x = false /\ too_long x = false.
Proof.
  unfold entry_name. rewrite !andb_true_iff, !negb_true_iff. tauto.
Qed.

Lemma entry_names_valid (l : list string) :
  Forall (fun x => entry_name x = true) l ->
  Forall (fun x => valid_name x = true) l.
Proof.
  intros Hl. eapply Forall_impl; [exact Hl|].
  by intros x (? & _)%entry_name_inv.
Qed.

Lemma entry_names_no_nul (l : list string) :
  Forall (fun x => entry_name x = true) l -> existsb has_nul l = false.
Proof.
  induction 1 as [|x l (_ & Hx & _)%entry_name_inv _ IH]; [done|].
  simpl. by rewrite Hx, IH.
Qed.

Lemma no_nul_app (p q : list string) :
  existsb has_nul (p ++ q) = false <->
  existsb has_nul p = false /\ existsb has_nul q = false.
Proof. by rewrite existsb_app, orb_false_iff. Qed.









Lemma contains_cons (c d : ascii) (s : string) :
  Str.contains c (String d s) = Ascii.eqb d c || Str.contains c s.
Proof. reflexivity. Qed.





Lemma parent_valid (p : path) :
  Forall (fun x => valid_name x = true) p ->
  Forall (fun x => valid_name x = true) (PurePath.parent p).
Proof.
  destruct p as [|x p _] using rev_ind; [done|].
  rewrite parent_snoc. by intros [? _]%Forall_app.
Qed.

(** [normpath] leaves no [".."]. *)
Lemma normpath_from_valid (cur : path) (todo : list string) :
  Forall (fun x => valid_name x = true) cur ->
  Forall segment_ok todo ->
  Forall (fun x => valid_name x = true) (PurePath.normpath_from cur todo).
Proof.
  revert cur. induction todo as [|x rest IH]; intros cur Hcur Htodo; [done|].
  apply Forall_cons in Htodo as [Hx Hrest]. simpl.
  destruct (String.eqb x "..") eqn:Hdd.
  - apply IH; [by apply parent_valid|done].
  - apply IH; [|done]. apply Forall_app. split; [done|].
    apply Forall_singleton. destruct Hx as [->|Hx]; done.
Qed.

(** [normpath] leaves a path without [".."] as it is. *)
Lemma normpath_from_plain (cur : path) (todo : list string) :
  Forall (fun x => valid_name x = true) todo ->
  PurePath.normpath_from cur todo = cur ++ todo.
Proof.
  revert cur. induction todo as [|x rest IH]; intros cur Htodo.
  { by rewrite app_nil_r. }
  apply Forall_cons in Htodo as [Hx Hrest]. simpl.
  rewrite (valid_name_not_dotdot _ Hx), IH by done.
  by rewrite <- app_assoc.
Qed.

Lemma normpath_plain (p : path) :
  Forall (fun x => valid_name x = true) p -> PurePath.normpath p = p.
Proof. apply (normpath_from_plain []). Qed.

Lemma valid_segment_ok (l : list string) :
  Forall (fun x => valid_name x = true) l -> Forall segment_ok l.
Proof. intros Hl. eapply Forall_impl; [exact Hl|]. by right. Qed.

Lemma split_no_sep_inside (c : ascii) (s : string) :
  Forall (fun x => Str.contains c x = false) (Str.split c s).
Proof.
  induction s as [|d s IH]; simpl; [by repeat constructor|].
  destruct (Ascii.eqb d c) eqn:Hd; [by constructor|].
  destruct (Str.split c s) as [|h t].
  - constructor; [|done]. simpl. by rewrite Hd.
  - inversion IH; subst. constructor; [|done]. simpl. by rewrite Hd.
Qed.

Lemma parse_parts_ok (s : string) : Forall segment_ok (PurePath.parse_parts s).
Proof.
  unfold PurePath.parse_parts.
  pose proof (split_no_sep_inside PurePath.sep s) as Hall.
  induction Hall as [|x l Hx _ IH]; simpl; [done|].
  destruct (PurePath.keep_part x) eqn:Hk; [|done].
  constructor; [|done]. unfold segment_ok, valid_name.
  rewrite Hk, Hx. simpl.
  destruct (String.eqb x "..") eqn:Hdd; [|by right].
  left. by apply String.eqb_eq.
Qed.

Lemma joinpath_ok cwd s :
  Forall (fun x => valid_name x = true) cwd ->
  Forall segment_ok (PurePath.joinpath cwd s).
Proof.
  intros Hcwd. unfold PurePath.joinpath.
  destruct (PurePath.isabs s); [apply parse_parts_ok|].
  apply Forall_app. split; [by apply valid_segment_ok|apply parse_parts_ok].
Qed.

End Strings.

(** ** The kernel's lookup *)

Section Walk.

Lemma walk_nil fs fuel cur : walk fs fuel cur [] = inr cur.
Proof. by destruct fuel. Qed.

Lemma walk_cons fs fuel cur x rest :
  walk fs fuel cur (x :: rest) =
    if negb (is_dir_node (node_at fs cur)) then inl ENOTDIR
    else if String.eqb x ".." then walk fs fuel (PurePath.parent cur) rest
    else if too_long x then inl ENAMETOOLONG
    else
      match fs !! (cur ++ [x]) with
      | Some (Symlink target) =>
          if String.eqb target "" then inl ENOENT
          else
            match fuel with
            | O => inl ELOOP
            | S fuel' =>
                walk fs fuel'
                  (if PurePath.isabs target then [] else cur)
                  (PurePath.parse_parts target ++ rest)
            end
      | Some _ => walk fs fuel (cur ++ [x]) rest
      | None => inl ENOENT
      end.
Proof. by destruct fuel. Qed.

#[local] Opaque walk.

(** Induction along a lookup: on the links still allowed, then on
    the components still to be read. *)
Lemma walk_ind (fs : FS) (P : nat -> path -> list string -> Prop) :
  (forall fuel cur, P fuel cur []) ->
  (forall fuel cur x rest,
      P fuel (PurePath.parent cur) rest ->
      P fuel (cur ++ [x]) rest ->
      (forall fuel' target,
          fuel = S fuel' ->
          fs !! (cur ++ [x]) = Some (Symlink target) ->
          P fuel' (if PurePath.isabs target then [] else cur)
            (PurePath.parse_parts target ++ rest)) ->
      P fuel cur (x :: rest)) ->
  forall fuel cur todo, P fuel cur todo.
Proof.
  intros Hnil Hcons fuel.
  induction fuel as [|fuel IHfuel]; intros cur todo; revert cur;
    induction todo as [|x rest IH]; intros cur; auto.
  - apply Hcons; auto. intros ? ? [=].
  - apply Hcons; auto. intros ? ? [= <-] _. apply IHfuel.
Qed.

(** A lookup never reports [EEXIST]. *)
Lemma walk_not_EEXIST fs fuel cur todo :
  walk fs fuel cur todo <> inl EEXIST.
Proof.
  revert fuel cur todo.
  apply (walk_ind fs); intros fuel cur.
  - by rewrite walk_nil.
  - intros x rest IHup IHdown IHlink. rewrite walk_cons.
    destruct (negb _); [done|].
    destruct (String.eqb x ".."); [done|].
    destruct (too_long x); [done|].
    destruct (fs !! (cur ++ [x])) as [[| |target]|]; try done.
    destruct (String.eqb target ""); [done|].
    destruct fuel; [done|]. by apply IHlink.
Qed.

Lemma node_at_snoc fs p x : node_at fs (p ++ [x]) = fs !! (p ++ [x]).
Proof. by destruct p. Qed.

Lemma node_at_lookup fs p n : fs !! p = Some n -> p <> [] -> node_at fs p = Some n.
Proof. by destruct p. Qed.


Lemma fs_wfb_correct fs : fs_wfb fs = true -> fs_wf fs.
Proof.
  unfold fs_wfb. rewrite forallb_forall. intros Hall p n Hp.
  apply andb_true_iff, (Hall (p, n)), list_elem_of_In.
  by apply elem_of_map_to_list.
Qed.

(** The lookup of a path on which no link lies does not end in a
    link loop. *)
Lemma walk_no_link fs fuel cur rel :
  (forall pre suf t, rel = pre ++ suf -> pre <> [] ->
                     fs !! (cur ++ pre) <> Some (Symlink t)) ->
  Forall (fun x => valid_name x = true) rel ->
  walk fs fuel cur rel <> inl ELOOP.
Proof.
  revert cur. induction rel as [|x rel IH]; intros cur Hno Hrel.
  { by rewrite walk_nil. }
  apply Forall_cons in Hrel as [Hx Hrel].
  rewrite walk_cons.
  destruct (negb _); [done|].
  rewrite (valid_name_not_dotdot _ Hx).
  destruct (too_long x); [done|].
  pose proof (Hno [x] rel) as Hx'. simpl in Hx'.
  destruct (fs !! (cur ++ [x])) as [[| |target]|]; try done.
  - apply IH; [|done]. intros pre suf t -> _.
    rewrite <- app_assoc. by apply (Hno (x :: pre) suf).
  - apply IH; [|done]. intros pre suf t -> _.
    rewrite <- app_assoc. by apply (Hno (x :: pre) suf).
  - by destruct (Hx' target).
Qed.

Section WellFormed.
Variable fs : FS.
Hypothesis Hwf : fs_wf fs.

(** An entry lies in a directory, under a name an entry can have. *)
Lemma wf_entry p x :
  is_Some (fs !! (p ++ [x])) ->
  entry_name x = true /\ is_dir_node (node_at fs p) = true.
Proof.
  intros [n Hn]. destruct (Hwf _ _ Hn) as [Hv Hd].
  by rewrite name_snoc in Hv; rewrite parent_snoc in Hd.
Qed.

Lemma wf_snoc p x :
  is_Some (fs !! (p ++ [x])) ->
  valid_name x = true /\ is_dir_node (node_at fs p) = true.
Proof. intros [(? & _)%entry_name_inv ?]%wf_entry. done. Qed.

Lemma wf_dir_is_Some p x :
  is_dir_node (node_at fs (p ++ [x])) = true -> is_Some (fs !! (p ++ [x])).
Proof. rewrite node_at_snoc. by destruct (fs !! _). Qed.

(** Whatever an entry lies below is a directory. *)
Lemma wf_ancestor p rel :
  rel <> [] -> is_Some (fs !! (p ++ rel)) ->
  is_dir_node (node_at fs p) = true.
Proof.
  induction rel as [|x rel IH] using rev_ind; [done|]. intros _ Hn.
  rewrite app_assoc in Hn. apply wf_snoc in Hn as [_ Hd].
  destruct rel as [|y rel _] using rev_ind; [by rewrite app_nil_r in Hd|].
  apply IH; [by destruct rel|].
  rewrite app_assoc. apply wf_dir_is_Some. by rewrite <- app_assoc.
Qed.

Lemma wf_entry_names p :
  is_Some (fs !! p) -> Forall (fun x => entry_name x = true) p.
Proof.
  induction p as [|x p IH] using rev_ind; [done|]. intros Hn.
  apply wf_entry in Hn as Hx. destruct Hx as [Hx Hd].
  apply Forall_app; split; [|by apply Forall_singleton].
  destruct p as [|y p _] using rev_ind; [done|].
  by apply IH, wf_dir_is_Some.
Qed.


Lemma stored_is_Some p : p <> [] -> stored fs p = true -> is_Some (fs !! p).
Proof.
  unfold stored. destruct p; [done|]. simpl.
  by destruct (fs !! _) as [[]|].
Qed.

Lemma stored_entry_names p :
  stored fs p = true -> Forall (fun x => entry_name x = true) p.
Proof.
  intros Hp. destruct p as [|x p]; [done|].
  by apply wf_entry_names, stored_is_Some.
Qed.

Lemma stored_no_nul p : stored fs p = true -> existsb has_nul p = false.
Proof. intros Hp. by apply entry_names_no_nul, stored_entry_names. Qed.

Lemma stored_dir p : is_dir_node (node_at fs p) = true -> stored fs p = true.
Proof. unfold stored. by intros ->. Qed.


(** No link lies on the way to an entry that is not a link. *)
Lemma stored_no_link p pre suf t :
  stored fs p = true -> p = pre ++ suf -> node_at fs pre <> Some (Symlink t).
Proof.
  intros Hp -> Hlink.
  destruct suf as [|y suf].
  - rewrite app_nil_r in Hp. unfold stored in Hp. by rewrite Hlink in Hp.
  - assert (Hd : is_dir_node (node_at fs pre) = true).
    { apply (wf_ancestor pre (y :: suf)); [done|].
      apply stored_is_Some; [by destruct pre|done]. }
    by rewrite Hlink in Hd.
Qed.

(** A path stored as written is walked as written. *)
Lemma walk_stored fuel cur rel rest :
  stored fs (cur ++ rel) = true ->
  walk fs fuel cur (rel ++ rest) = walk fs fuel (cur ++ rel) rest.
Proof.
  revert cur. induction rel as [|x rel IH]; intros cur Hst.
  { by rewrite app_nil_r. }
  assert (Hsome : is_Some (fs !! (cur ++ x :: rel))).
  { apply stored_is_Some; [by destruct cur|done]. }
  replace (cur ++ x :: rel) with ((cur ++ [x]) ++ rel) in *
    by (by rewrite <- app_assoc).
  simpl. rewrite walk_cons.
  assert (Hcur : is_dir_node (node_at fs cur) = true).
  { apply (wf_ancestor cur (x :: rel)); [done|]. by rewrite <- app_assoc in Hsome. }
  rewrite Hcur. simpl.
  assert (Hx : entry_name x = true).
  { pose proof (wf_entry_names _ Hsome) as Hnames.
    apply Forall_app in Hnames as [Hnames _].
    apply Forall_app in Hnames as [_ Hnames].
    by inversion Hnames. }
  apply entry_name_inv in Hx as (Hx & _ & Hshort).
  rewrite (valid_name_not_dotdot _ Hx), Hshort.
  assert (Hn : stored fs (cur ++ [x]) = true).
  { destruct rel as [|y rel]; [by rewrite app_nil_r in Hst|].
    by apply stored_dir, (wf_ancestor _ (y :: rel)). }
  unfold stored in Hn. rewrite node_at_snoc in Hn.
  destruct (fs !! (cur ++ [x])) as [[| |]|]; try done; by apply IH.
Qed.

Lemma namei_stored p : stored fs p = true -> namei fs p = inr p.
Proof.
  intros Hp. unfold namei.
  rewrite <- (app_nil_r p) at 1.
  by rewrite (walk_stored _ [] p []), walk_nil.
Qed.



Lemma os_stat_stored p n :
  node_at fs p = Some n -> stored fs p = true -> os_stat fs p = inr (stat_of n).
Proof. intros Hn Hp. unfold os_stat. by rewrite (namei_stored _ Hp), Hn. Qed.

End WellFormed.

End Walk.

(** ** [os.path.realpath] and [Path.resolve] *)

Section Realpath.

Lemma jrp_nil fs fuel cur seen :
  _joinrealpath fs fuel cur [] seen = Resolved cur seen.
Proof. by destruct fuel. Qed.

Lemma jrp_cons fs fuel cur name rest seen :
  _joinrealpath fs fuel cur (name :: rest) seen =
    if String.eqb name ".."
    then _joinrealpath fs fuel (PurePath.parent cur) rest seen
    else if has_nul name then Refused
    else
      match fs !! (cur ++ [name]) with
      | Some (Symlink target) =>
          match seen !! (cur ++ [name]) with
          | Some (Some q) => _joinrealpath fs fuel q rest seen
          | Some None => Unresolved ((cur ++ [name]) ++ rest)
          | None =>
              match fuel with
              | O => Exhausted
              | S fuel' =>
                  match _joinrealpath fs fuel'
                          (if PurePath.isabs target then [] else cur)
                          (PurePath.parse_parts target)
                          (<[ cur ++ [name] := None ]> seen) with
                  | Resolved q seen' =>
                      _joinrealpath fs fuel q rest
                                    (<[ cur ++ [name] := Some q ]> seen')
                  | Unresolved q => Unresolved (q ++ rest)
                  | Refused => Refused
                  | Exhausted => Exhausted
                  end
              end
          end
      | _ => _joinrealpath fs fuel (cur ++ [name]) rest seen
      end.
Proof. by destruct fuel. Qed.

#[local] Opaque _joinrealpath.

(** Induction along a resolution: on the depth still allowed, then on
    the components still to be read. *)
Lemma jrp_ind (P : nat -> path -> list string -> seen_links -> Prop) :
  (forall fuel cur seen, P fuel cur [] seen) ->
  (forall fuel cur x rest seen,
      (forall cur' seen', P fuel cur' rest seen') ->
      (forall fuel' cur' todo seen',
          fuel = S fuel' -> P fuel' cur' todo seen') ->
      P fuel cur (x :: rest) seen) ->
  forall fuel cur todo seen, P fuel cur todo seen.
Proof.
  intros Hnil Hcons fuel.
  induction fuel as [|fuel IHfuel]; intros cur todo; revert cur;
    induction todo as [|x rest IH]; intros cur seen; auto.
  - apply Hcons; auto. intros ? ? ? ? [=].
  - apply Hcons; auto. intros ? ? ? ? [= <-]. apply IHfuel.
Qed.

(** A stretch of the path on which no link lies is kept as it is
    written. *)
Lemma jrp_no_link fs fuel cur rel rest seen :
  Forall (fun x => valid_name x = true) rel ->
  existsb has_nul rel = false ->
  (forall pre suf t, rel = pre ++ suf -> pre <> [] ->
                     fs !! (cur ++ pre) <> Some (Symlink t)) ->
  _joinrealpath fs fuel cur (rel ++ rest) seen
  = _joinrealpath fs fuel (cur ++ rel) rest seen.
Proof.
  revert cur. induction rel as [|x rel IH]; intros cur Hrel Hnul Hno.
  { by rewrite app_nil_r. }
  apply Forall_cons in Hrel as [Hx Hrel].
  simpl in Hnul. apply orb_false_iff in Hnul as [Hxn Hnul].
  simpl. rewrite jrp_cons, (valid_name_not_dotdot _ Hx), Hxn.
  assert (Hgo : _joinrealpath fs fuel (cur ++ [x]) (rel ++ rest) seen
                = _joinrealpath fs fuel (cur ++ x :: rel) rest seen).
  { rewrite IH; [by rewrite <- app_assoc|done..|].
    intros pre suf t -> _. rewrite <- app_assoc.
    by apply (Hno (x :: pre) suf). }
  pose proof (Hno [x] rel) as Hx'. simpl in Hx'.
  destruct (fs !! (cur ++ [x])) as [[| |target]|]; try done.
  by destruct (Hx' target).
Qed.

(** The resolved path has no [".."], ["."] or empty segment, and what
    is left of an unresolved one has only segments a path can hold. *)
Lemma jrp_valid fs fuel cur todo seen :
  Forall (fun x => valid_name x = true) cur ->
  Forall segment_ok todo ->
  seen_valid seen ->
  match _joinrealpath fs fuel cur todo seen with
  | Resolved q seen' =>
      Forall (fun x => valid_name x = true) q /\ seen_valid seen'
  | Unresolved q => Forall segment_ok q
  | _ => True
  end.
Proof.
  revert fuel cur todo seen.
  refine (jrp_ind (fun fuel cur todo seen => _ -> _ -> _ -> _) _ _).
  - intros fuel cur seen Hcur _ Hseen. by rewrite jrp_nil.
  - intros fuel cur x rest seen IHrest IHfuel Hcur Htodo Hseen.
    apply Forall_cons in Htodo as [Hx Hrest].
    rewrite jrp_cons.
    destruct (String.eqb x "..") eqn:Hdd.
    { apply IHrest; [by apply parent_valid|done..]. }
    destruct (has_nul x); [done|].
    assert (Hnew : Forall (fun x => valid_name x = true) (cur ++ [x])).
    { apply Forall_app. split; [done|]. apply Forall_singleton.
      destruct Hx as [->|Hx]; done. }
    destruct (fs !! (cur ++ [x])) as [[| |target]|]; try by apply IHrest.
    destruct (seen !! (cur ++ [x])) as [[q|]|] eqn:Hs.
    + apply IHrest; [by apply (Hseen _ _ Hs)|done..].
    + apply Forall_app. split; [by apply valid_segment_ok|done].
    + destruct fuel as [|fuel']; [done|].
      specialize (IHfuel fuel' (if PurePath.isabs target then [] else cur)
                    (PurePath.parse_parts target)
                    (<[ cur ++ [x] := None ]> seen) eq_refl).
      destruct (_joinrealpath fs fuel' _ _ _) as [q seen'|q| |]; try done.
      * destruct IHfuel as [Hq Hseen'].
        { by destruct (PurePath.isabs target). }
        { apply parse_parts_ok. }
        { intros l q' Hl. destruct (decide (cur ++ [x] = l)) as [<-|Hne].
          - by rewrite lookup_insert_eq in Hl.
          - rewrite lookup_insert_ne in Hl by done. by apply (Hseen l). }
        apply IHrest; [done..|].
        intros l q' Hl. destruct (decide (cur ++ [x] = l)) as [<-|Hne].
        -- rewrite lookup_insert_eq in Hl. by injection Hl as <-.
        -- rewrite lookup_insert_ne in Hl by done. by apply (Hseen' l).
      * apply Forall_app. split; [|done]. apply IHfuel.
        { by destruct (PurePath.isabs target). }
        { apply parse_parts_ok. }
        { intros l q' Hl. destruct (decide (cur ++ [x] = l)) as [<-|Hne].
          - by rewrite lookup_insert_eq in Hl.
          - rewrite lookup_insert_ne in Hl by done. by apply (Hseen l). }
Qed.




(** The links being resolved inside one another are all different
    entries of the tree: the depth allowed is never used up. *)
Lemma jrp_total fs fuel cur todo seen :
  dom seen ⊆ dom fs ->
  size (dom fs ∖ dom seen) < fuel ->
  match _joinrealpath fs fuel cur todo seen with
  | Exhausted => False
  | Resolved _ seen' => dom seen ⊆ dom seen' /\ dom seen' ⊆ dom fs
  | _ => True
  end.
Proof.
  revert fuel cur todo seen.
  refine (jrp_ind (fun fuel cur todo seen => _ -> _ -> _) _ _).
  - intros fuel cur seen Hsub _. by rewrite jrp_nil.
  - intros fuel cur x rest seen IHrest IHfuel Hsub Hsize. rewrite jrp_cons.
    destruct (String.eqb x ".."); [by apply IHrest|].
    destruct (has_nul x); [done|].
    destruct (fs !! (cur ++ [x])) as [[| |target]|] eqn:Hn;
      try by apply IHrest.
    destruct (seen !! (cur ++ [x])) as [[q|]|] eqn:Hs;
      [by apply IHrest|done|].
    assert (Hin : cur ++ [x] ∈ dom fs) by (apply elem_of_dom; eauto).
    assert (Hout : cur ++ [x] ∉ dom seen) by by apply not_elem_of_dom.
    assert (Hlt : size (dom fs ∖ dom (<[ cur ++ [x] := @None path ]> seen))
                  < size (dom fs ∖ dom seen)).
    { apply subset_size. rewrite dom_insert. set_solver. }
    destruct fuel as [|fuel']; [lia|].
    specialize (IHfuel fuel' (if PurePath.isabs target then [] else cur)
                  (PurePath.parse_parts target)
                  (<[ cur ++ [x] := None ]> seen) eq_refl).
    destruct (_joinrealpath fs fuel' _ _ _) as [q seen'|q| |]; try done.
    + destruct IHfuel as [Hsub1 Hsub2].
      { rewrite dom_insert. set_solver. }
      { lia. }
      rewrite dom_insert in Hsub1.
      assert (Hsub' : dom seen ⊆ dom (<[ cur ++ [x] := Some q ]> seen')).
      { rewrite dom_insert. set_solver. }
      pose proof (IHrest q (<[ cur ++ [x] := Some q ]> seen')) as IH.
      destruct (_joinrealpath fs (S fuel') q rest _) as [q' seen''|q'| |];
        try done.
      * destruct IH as [Ha Hb].
        { rewrite dom_insert. set_solver. }
        { eapply Nat.le_lt_trans; [|exact Hsize].
          apply subseteq_size. set_solver. }
        split; [set_solver|done].
      * apply IH.
        { rewrite dom_insert. set_solver. }
        { eapply Nat.le_lt_trans; [|exact Hsize].
          apply subseteq_size. set_solver. }
    + apply IHfuel; [rewrite dom_insert; set_solver|lia].
Qed.

Lemma jrp_not_exhausted fs p :
  _joinrealpath fs (S (size fs)) [] p ∅ <> Exhausted.
Proof.
  pose proof (jrp_total fs (S (size fs)) [] p ∅) as Ht.
  intros Hex. rewrite Hex in Ht. apply Ht.
  - set_solver.
  - rewrite dom_empty_L, difference_empty_L, size_dom. lia.
Qed.

(** [os.path.realpath] returns a path, unless a name holds a NUL
    byte. *)
Lemma posixpath_realpath_total fs p :
  (exists q, posixpath_realpath fs p = inr q)
  \/ posixpath_realpath fs p = inl embedded_null.
Proof.
  unfold posixpath_realpath.
  pose proof (jrp_not_exhausted fs p) as Hne.
  destruct (_joinrealpath fs _ _ _ _); eauto. done.
Qed.

Lemma posixpath_realpath_valid fs p q :
  Forall segment_ok p ->
  posixpath_realpath fs p = inr q ->
  Forall (fun x => valid_name x = true) q.
Proof.
  intros Hp. unfold posixpath_realpath.
  pose proof (jrp_valid fs (S (size fs)) [] p ∅ (Forall_nil_2 _) Hp) as Hv.
  destruct (_joinrealpath fs _ _ _ _) as [q' seen|q'| |]; try done.
  - intros [= <-]. destruct Hv as [Hq _]; [done|].
    by rewrite normpath_plain.
  - intros [= <-]. apply normpath_from_valid; [done|]. by apply Hv.
Qed.


(** A path on which no link lies resolves to itself. *)
Lemma posixpath_realpath_plain fs p :
  plain fs p -> existsb has_nul p = false ->
  posixpath_realpath fs p = inr p.
Proof.
  intros [Hp Hno] Hnul. unfold posixpath_realpath.
  rewrite <- (app_nil_r p) at 1.
  rewrite (jrp_no_link fs _ [] p []), jrp_nil; [|done..|].
  - by rewrite normpath_plain.
  - intros pre suf t -> Hne Hl. apply (Hno pre suf t eq_refl).
    destruct pre; [done|]. exact Hl.
Qed.

(** What [resolve] returns has no [".."], ["."] or empty segment and
    no NUL byte, and is not found to lie on a link loop. *)
Lemma realpath_inv fs p q :
  realpath fs p = inr q ->
  posixpath_realpath fs p = inr q
  /\ existsb has_nul q = false
  /\ os_stat fs q <> inl ELOOP.
Proof.
  unfold realpath, posix_stat, embedded_null.
  destruct (posixpath_realpath fs p) as [e|q']; [done|].
  destruct (existsb has_nul q') eqn:Hnul; [done|].
  destruct (os_stat fs q') as [[]|st] eqn:Hst; try done;
    intros [= <-]; by rewrite Hst.
Qed.

Lemma realpath_valid fs p q :
  Forall segment_ok p -> realpath fs p = inr q ->
  Forall (fun x => valid_name x = true) q.
Proof.
  intros Hp (Hq & _)%realpath_inv. by apply (posixpath_realpath_valid fs p).
Qed.

Lemma realpath_intro fs p q :
  posixpath_realpath fs p = inr q ->
  existsb has_nul q = false ->
  os_stat fs q <> inl ELOOP ->
  realpath fs p = inr q.
Proof.
  intros Hq Hnul Hloop. unfold realpath, posix_stat. rewrite Hq, Hnul.
  by destruct (os_stat fs q) as [[]|st].
Qed.

(** A path on which no link lies resolves to itself. *)
Lemma realpath_plain fs p :
  plain fs p -> existsb has_nul p = false -> realpath fs p = inr p.
Proof.
  intros Hp Hnul. apply realpath_intro; [by apply posixpath_realpath_plain|done|].
  destruct Hp as [Hp Hno]. unfold os_stat, namei.
  destruct (walk fs MAXSYMLINKS [] p) as [e|q] eqn:Hw.
  - intros [= ->]. revert Hw. apply walk_no_link; [|done].
    intros pre suf t -> Hne Hl. apply (Hno pre suf t eq_refl).
    destruct pre; [done|]. exact Hl.
  - by destruct (node_at fs q).
Qed.

Lemma stored_plain fs p : fs_wf fs -> stored fs p = true -> plain fs p.
Proof.
  intros Hwf Hp. split.
  - by apply entry_names_valid, (stored_entry_names fs).
  - intros pre suf t. by apply (stored_no_link fs).
Qed.

(** An entry that is not a link resolves to itself. *)
Lemma realpath_stored fs p :
  fs_wf fs -> stored fs p = true -> realpath fs p = inr p.
Proof.
  intros Hwf Hp. apply realpath_plain; [by apply stored_plain|].
  by apply (stored_no_nul fs).
Qed.

End Realpath.

(** ** Where the kernel arrives, [resolve] arrives *)

Section Simulation.

#[local] Opaque walk _joinrealpath.







End Simulation.

(** ** The [pathlib] operations, run *)

Section Operations.

Lemma tick_quiet fs : tick (quiet fs) = quiet fs.
Proof. reflexivity. Qed.

Lemma stat_run p w :
  Path.stat p w = (posix_stat (w_fs w) p, tick w).
Proof. reflexivity. Qed.

Lemma posix_stat_clean fs p :
  existsb has_nul p = false ->
  posix_stat fs p = match os_stat fs p with
                    | inl e => inl (OSError e (PurePath.str p))
                    | inr st => inr st
                    end.
Proof. unfold posix_stat. by intros ->. Qed.

(** Each of the three tests is one [stat]. *)
Lemma test_run (f : stat_result -> bool) p w :
  try_except (st <- Path.stat p ;; ret (f st)) Path.not_there w =
    (outcome (probe_of f (w_fs w) p), tick w).
Proof.
  unfold try_except, bind. rewrite stat_run.
  unfold probe_of, posix_stat, embedded_null.
  destruct (existsb has_nul p); [done|].
  destruct (os_stat (w_fs w) p) as [[]|st]; done.
Qed.

Lemma exists_run p w :
  Path.exists_ p w = (outcome (exists_at (w_fs w) p), tick w).
Proof. apply (test_run (fun _ => true)). Qed.

Lemma is_file_run p w :
  Path.is_file p w = (outcome (is_file_at (w_fs w) p), tick w).
Proof. apply (test_run (fun st => S_ISREG (st_mode st))). Qed.

Lemma is_dir_run p w :
  Path.is_dir p w = (outcome (is_dir_at (w_fs w) p), tick w).
Proof. apply (test_run (fun st => S_ISDIR (st_mode st))). Qed.

Lemma resolve_run p w :
  Path.resolve p w = (realpath (w_fs w) p, tick w).
Proof. reflexivity. Qed.

(** A test that answers [True] was made of a [stat] that succeeded,
    on a path without NUL byte. *)
Lemma probe_true f fs p :
  probe_of f fs p = true ->
  existsb has_nul p = false
  /\ exists st, os_stat fs p = inr st /\ f st = true.
Proof.
  unfold probe_of. destruct (existsb has_nul p); [done|].
  destruct (os_stat fs p) as [[]|st]; try done.
  intros [= Hf]. eauto.
Qed.

(** A test raises only the error of its [stat]. *)
Lemma probe_raised f fs p e :
  probe_of f fs p = Raised e ->
  existsb has_nul p = false
  /\ exists en, os_stat fs p = inl en /\ e = OSError en (PurePath.str p)
                /\ en <> ENOENT /\ en <> ENOTDIR /\ en <> ELOOP.
Proof.
  unfold probe_of. destruct (existsb has_nul p); [done|].
  destruct (os_stat fs p) as [[]|st]; try done;
    intros [= <-]; split; try done; eexists; by split_and!.
Qed.

Lemma probe_stat f fs p st :
  existsb has_nul p = false -> os_stat fs p = inr st ->
  probe_of f fs p = f st.
Proof. unfold probe_of. by intros -> ->. Qed.

Lemma is_dir_at_inv fs p :
  is_dir_at fs p = true ->
  exists d, namei fs p = inr d /\ is_dir_node (node_at fs d) = true.
Proof.
  intros (_ & st & Hst & Hd)%probe_true. revert Hst.
  unfold os_stat. destruct (namei fs p) as [e|d]; [done|].
  destruct (node_at fs d) as [[]|] eqn:Hn; try done.
  - intros [= <-]. done.
  - intros _. exists d. by rewrite Hn.
  - intros [= <-]. done.
Qed.

Lemma is_file_at_inv fs p :
  is_file_at fs p = true ->
  existsb has_nul p = false
  /\ exists q data c m,
       namei fs p = inr q /\ node_at fs q = Some (File data c m)
       /\ os_stat fs p = inr (stat_of (File data c m)).
Proof.
  intros (Hnul & st & Hst & Hf)%probe_true. split; [done|]. revert Hst.
  unfold os_stat. destruct (namei fs p) as [e|q]; [done|].
  destruct (node_at fs q) as [[data c m| |]|] eqn:Hq; try done.
  - intros _. by exists q, data, c, m.
  - intros [= <-]. done.
  - intros [= <-]. done.
Qed.

End Operations.

(** ** Download *)

Section Download.
Context `{Platform}.
Variable target_directory : path.

(** The answer to a download once the requested path is resolved:
    the containment test first, then the tests on the file. *)
Lemma download_resolved file_path w q :
  realpath (w_fs w) (PurePath.joinpath target_directory file_path) = inr q ->
  serve (download_file target_directory file_path) w =
    if negb (Str.startswith (PurePath.str q) (PurePath.str target_directory))
    then ErrorResponse 400 "Caminho inválido"
    else
      match exists_at (w_fs (tick w)) q with
      | Raised e => ErrorResponse 500 (str_exn e)
      | Returned false => ErrorResponse 404 "Arquivo não encontrado"
      | Returned true =>
          match is_file_at (w_fs (tick (tick w))) q with
          | Raised e => ErrorResponse 500 (str_exn e)
          | Returned false => ErrorResponse 404 "Arquivo não encontrado"
          | Returned true =>
              FileResponse q (PurePath.name q) "application/octet-stream"
          end
      end.
Proof.
  intros Hq. unfold serve, download_file, try_except, bind.
  rewrite resolve_run, Hq.
  destruct (negb (Str.startswith _ _)); [done|].
  rewrite exists_run.
  destruct (exists_at _ q) as [[]|e] eqn:He; simpl.
  - rewrite is_file_run.
    destruct (is_file_at _ q) as [[]|e] eqn:Hf; simpl; try done.
    by apply probe_raised in Hf as (_ & en & _ & -> & _).
  - done.
  - by apply probe_raised in He as (_ & en & _ & -> & _).
Qed.

(** What [resolve] raises is reported as it is. *)
Lemma download_unresolved file_path w e :
  realpath (w_fs w) (PurePath.joinpath target_directory file_path) = inl e ->
  serve (download_file target_directory file_path) w
  = ErrorResponse 500 (str_exn e).
Proof.
  intros Hq. unfold serve, download_file, try_except, bind.
  rewrite resolve_run, Hq.
  unfold realpath in Hq.
  destruct (posixpath_realpath_total (w_fs w)
              (PurePath.joinpath target_directory file_path))
    as [[q Hp]|Hp]; rewrite Hp in Hq.
  - unfold posix_stat, embedded_null in Hq.
    destruct (existsb has_nul q); [by injection Hq as <-|].
    destruct (os_stat (w_fs w) q) as [[]|st]; try done.
    by injection Hq as <-.
  - by injection Hq as <-.
Qed.

(** A request whose resolved path fails the test on strings is
    refused, whatever the path names. *)
Lemma download_refused file_path w q :
  realpath (w_fs w) (PurePath.joinpath target_directory file_path) = inr q ->
  Str.startswith (PurePath.str q) (PurePath.str target_directory) = false ->
  serve (download_file target_directory file_path) w =
    ErrorResponse 400 "Caminho inválido".
Proof. intros Hq Hs. by rewrite (download_resolved _ _ _ Hq), Hs. Qed.

(** A file is streamed only from a resolved path that passed the
    test on strings. *)
Lemma download_served file_path w p nm mt :
  serve (download_file target_directory file_path) w = FileResponse p nm mt ->
  realpath (w_fs w) (PurePath.joinpath target_directory file_path) = inr p
  /\ Str.startswith (PurePath.str p) (PurePath.str target_directory) = true.
Proof.
  destruct (realpath (w_fs w) (PurePath.joinpath target_directory file_path))
    as [e|q] eqn:Hq.
  - by rewrite (download_unresolved _ _ _ Hq).
  - rewrite (download_resolved _ _ _ Hq).
    destruct (Str.startswith _ _) eqn:Hs; [|done]. simpl.
    destruct (exists_at _ q) as [[]|]; try done.
    destruct (is_file_at _ q) as [[]|]; try done.
    by intros [= <- _ _].
Qed.

(** C3, amended: a request that resolves to a path inside the root
    is answered 404 "Arquivo não encontrado" when that path is not
    there or is not a regular file, and 500 with the message of the
    error when the system refuses to look it up, as it does for a
    name that is too long.  The containment test comes first: a
    resolved path failing it is answered 400 whether or not it
    exists. *)
Theorem download_not_found fs file_path q :
  let answer := serve (download_file target_directory file_path) (quiet fs) in
  realpath fs (PurePath.joinpath target_directory file_path) = inr q ->
  (PurePath.is_under target_directory q = true ->
   (exists_at fs q = false \/ is_file_at fs q = false ->
    answer = ErrorResponse 404 "Arquivo não encontrado")
   /\ (forall e,
         os_stat fs q = inl e -> e <> ENOENT -> e <> ENOTDIR -> e <> ELOOP ->
         answer = ErrorResponse 500
                    (strerror e +:+ ": " +:+ repr (PurePath.str q))))
  /\ (Str.startswith (PurePath.str q) (PurePath.str target_directory) = false ->
      answer = ErrorResponse 400 "Caminho inválido").
Proof.
  intros answer Hq. subst answer. split.
  - intros Hin. rewrite (download_resolved _ (quiet fs) _ Hq).
    rewrite (startswith_under _ _ Hin). simpl.
    apply realpath_inv in Hq as (_ & Hnul & _).
    unfold exists_at, is_file_at, probe_of. rewrite Hnul. split.
    + intros [Hno|Hno]; destruct (os_stat fs q) as [[]|st]; try done.
      by injection Hno as ->.
    + intros e -> Hne1 Hne2 Hne3. by destruct e.
  - by apply download_refused.
Qed.

(** C10: the empty relative path names the root itself, which passes
    the containment test and is no regular file: 404. *)
Theorem download_empty_path fs :
  fs_wf fs ->
  is_dir_node (node_at fs target_directory) = true ->
  serve (download_file target_directory "") (quiet fs) =
    ErrorResponse 404 "Arquivo não encontrado".
Proof.
  intros Hwf Hroot.
  assert (Hst : stored fs target_directory = true) by by apply stored_dir.
  assert (Hq : realpath fs (PurePath.joinpath target_directory "")
               = inr target_directory).
  { unfold PurePath.joinpath; simpl. rewrite app_nil_r.
    by apply realpath_stored. }
  rewrite (download_resolved _ (quiet fs) _ Hq).
  rewrite startswith_refl; simpl.
  destruct (node_at fs target_directory) as [[| c m|]|] eqn:Hn; try done.
  pose proof (os_stat_stored fs Hwf _ _ Hn Hst) as Hstat.
  pose proof (stored_no_nul fs Hwf _ Hst) as Hnul.
  unfold exists_at, is_file_at.
  by rewrite !(probe_stat _ _ _ _ Hnul Hstat).
Qed.

End Download.

(** ** Listing *)

Section Listing.
Context `{Platform}.
Variable target_directory : path.

Lemma elem_of_below fs d rel :
  rel ∈ below fs d <-> rel <> [] /\ is_Some (fs !! (d ++ rel)).
Proof.
  unfold below. rewrite list_elem_of_omap. split.
  - intros (q & Hq & Hrel).
    apply list_elem_of_fmap in Hq as ([q' n] & -> & Hq).
    apply elem_of_map_to_list in Hq. simpl in Hrel.
    destruct (PurePath.relative_to q' d) as [[|x r]|] eqn:Hr; try done.
    injection Hrel as <-. apply relative_to_inv in Hr as ->. eauto.
  - intros [Hne [n Hn]]. exists (d ++ rel). split.
    + apply list_elem_of_fmap. exists (d ++ rel, n). split; [done|].
      by apply elem_of_map_to_list.
    + rewrite relative_to_app. by destruct rel.
Qed.

Lemma rglob_run w :
  Path.rglob target_directory w =
    match is_dir_at (w_fs w) target_directory with
    | Raised e => (inl e, tick w)
    | Returned false => (inr [], tick w)
    | Returned true =>
        (posix_scan (w_fs (tick w)) target_directory, tick (tick w))
    end.
Proof.
  unfold Path.rglob, bind. rewrite is_dir_run.
  by destruct (is_dir_at _ _) as [[]|].
Qed.

Lemma rglob_quiet fs :
  Path.rglob target_directory (quiet fs) =
    match is_dir_at fs target_directory with
    | Raised e => (inl e, quiet fs)
    | Returned _ =>
        (inr (app target_directory <$> walked target_directory fs), quiet fs)
    end.
Proof.
  rewrite rglob_run. change (w_fs (quiet fs)) with fs. unfold walked.
  destruct (is_dir_at fs target_directory) as [[]|e] eqn:Hd; try done.
  apply is_dir_at_inv in Hd as (d & Hn & Hdir).
  unfold posix_scan, scan_tree. rewrite tick_quiet.
  change (w_fs (quiet fs)) with fs. by rewrite Hn, Hdir.
Qed.







Lemma is_dir_at_stored fs p :
  fs_wf fs -> is_dir_node (node_at fs p) = true -> is_dir_at fs p = true.
Proof.
  intros Hwf Hd.
  assert (Hst : stored fs p = true) by by apply stored_dir.
  destruct (node_at fs p) as [[| c m|]|] eqn:Hn; try done.
  unfold is_dir_at.
  by rewrite (probe_stat _ _ _ _ (stored_no_nul fs Hwf _ Hst)
                (os_stat_stored fs Hwf _ _ Hn Hst)).
Qed.

Lemma walked_below fs :
  fs_wf fs -> is_dir_node (node_at fs target_directory) = true ->
  walked target_directory fs = below fs target_directory.
Proof.
  intros Hwf Hroot. unfold walked.
  rewrite (is_dir_at_stored _ _ Hwf Hroot).
  by rewrite (namei_stored _ Hwf) by by apply stored_dir.
Qed.

Lemma rglob_stored fs :
  fs_wf fs -> is_dir_node (node_at fs target_directory) = true ->
  Path.rglob target_directory (quiet fs) =
    (inr (app target_directory <$> below fs target_directory), quiet fs).
Proof.
  intros Hwf Hroot.
  by rewrite rglob_quiet, (is_dir_at_stored _ _ Hwf Hroot), walked_below.
Qed.

(** The handler's answer, from the outcome of its [try] block. *)
Lemma list_files_run w :
  serve (list_files target_directory) w =
    match fst ((paths <- Path.rglob target_directory ;;
                for_each paths (list_files_body target_directory) []) w) with
    | inr files_info => JSONResponse files_info
    | inl e => ErrorResponse 500 (str_exn e)
    end.
Proof.
  unfold serve, list_files, try_except, bind.
  destruct (Path.rglob target_directory w) as [[e|paths] w1]; [done|].
  by destruct (for_each paths _ [] w1) as [[e|files_info] w2].
Qed.




Lemma for_each_app {A B} (l1 l2 : list A) (body : B -> A -> M B) acc w :
  for_each (l1 ++ l2) body acc w =
    match for_each l1 body acc w with
    | (inr acc', w') => for_each l2 body acc' w'
    | (inl e, w') => (inl e, w')
    end.
Proof.
  revert acc w. induction l1 as [|x l1 IH]; intros acc w; simpl.
  { by destruct (for_each l2 body acc w) as [[]]. }
  unfold bind. destruct (body acc x w) as [[e|acc'] w']; [done|]. apply IH.
Qed.







(** C7, amended: a root that is missing, or is no directory, when
    the walk starts makes the walk yield nothing, and the handler
    answers 200 with an empty array; when the walk does fail, the
    root being a directory when the walk starts and its scan failing
    after, the handler answers 500 with the message of the error as
    its detail. *)
Theorem list_files_walk_fails w :
  (is_dir_at (w_fs w) target_directory = false ->
   serve (list_files target_directory) w = JSONResponse [])
  /\ (forall e,
        is_dir_at (w_fs w) target_directory = true ->
        scan_tree (w_fs (tick w)) target_directory = inl e ->
        serve (list_files target_directory) w =
          ErrorResponse 500
            (strerror e +:+ ": " +:+ repr (PurePath.str target_directory)))
  /\ (forall e,
        fst (Path.rglob target_directory w) = inl e ->
        serve (list_files target_directory) w
        = ErrorResponse 500 (str_exn e)).
Proof.
  split_and!.
  - intros Hno. rewrite list_files_run. unfold bind.
    by rewrite rglob_run, Hno.
  - intros e Hdir Hscan. rewrite list_files_run. unfold bind.
    rewrite rglob_run, Hdir. unfold posix_scan. by rewrite Hscan.
  - intros e Hwalk. rewrite list_files_run. unfold bind.
    by destruct (Path.rglob target_directory w) as [[e'|paths] w1];
      simplify_eq/=.
Qed.

(** A turn of the loop on an entry that is no regular file. *)
Lemma list_files_skip p after files_info w :
  is_file_at (w_fs w) p = false ->
  for_each (p :: after) (list_files_body target_directory) files_info w =
    for_each after (list_files_body target_directory) files_info (tick w).
Proof.
  intros Hgone. simpl. unfold bind at 1. unfold list_files_body at 1.
  unfold bind at 1. by rewrite is_file_run, Hgone.
Qed.

(** A turn of the loop on an entry whose [stat] fails. *)
Lemma list_files_abort p after files_info w e :
  is_file_at (w_fs w) p = true ->
  os_stat (w_fs (tick w)) p = inl e ->
  fst (for_each (p :: after) (list_files_body target_directory) files_info w)
    = inl (OSError e (PurePath.str p)).
Proof.
  intros Hfile Hstat. simpl. unfold bind at 1. unfold list_files_body at 1.
  unfold bind at 1. rewrite is_file_run, Hfile. unfold outcome.
  apply probe_true in Hfile as (Hnul & _).
  unfold bind at 1. by rewrite stat_run, (posix_stat_clean _ _ Hnul), Hstat.
Qed.

(** C2, amended: an entry the walk found which is gone when the
    handler tests it is skipped, and the listing is that of the
    entries left; an entry which is gone after that test, when its
    metadata is read, aborts the listing: the answer is 500 with the
    message of the failed [stat]. *)
Theorem list_files_entry_vanishes w before p after files_info :
  let body := list_files_body target_directory in
  let w1 := snd (Path.rglob target_directory w) in
  let w2 := snd (for_each before body [] w1) in
  fst (Path.rglob target_directory w) = inr (before ++ p :: after) ->
  fst (for_each before body [] w1) = inr files_info ->
  (is_file_at (w_fs w2) p = false ->
   serve (list_files target_directory) w =
     match fst (for_each after body files_info (tick w2)) with
     | inr files => JSONResponse files
     | inl e => ErrorResponse 500 (str_exn e)
     end)
  /\ (forall e,
        is_file_at (w_fs w2) p = true ->
        os_stat (w_fs (tick w2)) p = inl e ->
        serve (list_files target_directory) w =
          ErrorResponse 500 (str_exn (OSError e (PurePath.str p)))).
Proof.
  intros body w1 w2 Hwalk Hbefore.
  assert (Hrun : serve (list_files target_directory) w =
                 match fst (for_each (p :: after) body files_info w2) with
                 | inr files => JSONResponse files
                 | inl e => ErrorResponse 500 (str_exn e)
                 end).
  { rewrite list_files_run. unfold bind. subst w1 w2.
    destruct (Path.rglob target_directory w) as [[e|paths] w1]; [done|].
    simpl in *. injection Hwalk as ->.
    rewrite for_each_app. fold body.
    by destruct (for_each before body [] w1) as [[e|acc] w2]; simplify_eq/=. }
  rewrite Hrun. split.
  - intros Hgone. unfold body. by rewrite list_files_skip.
  - intros e Hfile Hstat. unfold body.
    by rewrite (list_files_abort _ _ _ _ e).
Qed.

End Listing.

(** ** The root resolver *)

Section Mkdir.
Variable now : Z.

#[local] Opaque walk.




















End Mkdir.

Section RootResolver.
Context `{Platform}.

#[local] Opaque walk.





Lemma str_concat (names : list string) :
  names <> [] -> PurePath.str names = "/" +:+ String.concat "/" names.
Proof.
  intros Hne. destruct names as [|x r]; [done|]. clear Hne.
  change (PurePath.str (x :: r)) with (PurePath.str_segs (x :: r)).
  revert x. induction r as [|y r IH]; intros x.
  - simpl. by rewrite append_nil_r.
  - change (PurePath.str_segs (x :: y :: r))
      with ("/" +:+ x +:+ PurePath.str_segs (y :: r)).
    rewrite IH. reflexivity.
Qed.

Lemma startswith_cons (c d : ascii) (s pre : string) :
  Str.startswith (String d s) (String c pre)
  = Ascii.eqb c d && Str.startswith s pre.
Proof. reflexivity. Qed.






Lemma is_file_at_dir fs p :
  fs_wf fs -> is_dir_node (node_at fs p) = true -> is_file_at fs p = false.
Proof.
  intros Hwf Hp.
  assert (Hst : stored fs p = true) by by apply stored_dir.
  destruct (node_at fs p) as [[| c m|]|] eqn:Hn; try done.
  unfold is_file_at.
  by rewrite (probe_stat _ _ _ _ (stored_no_nul fs Hwf _ Hst)
                (os_stat_stored fs Hwf _ _ Hn Hst)).
Qed.



End RootResolver.

(** * Further properties of the handlers *)

(** ** The containment test, segment by segment *)

Section PrefixTest.

Lemma startswith_spec (h x : string) :
  Str.startswith h x = true <-> exists y, h = x +:+ y.
Proof.
  revert h. induction x as [|c x IH]; intros h.
  { split; [by exists h|done]. }
  destruct h as [|d h].
  { split; [done|]. by intros [y Hy]. }
  rewrite startswith_cons, andb_true_iff, Ascii.eqb_eq, IH. split.
  - intros [-> [y ->]]. by exists y.
  - intros [y Hy]. rewrite append_cons in Hy. injection Hy as -> ->. eauto.
Qed.

(** The text of a path after one of its segments: empty, or starting
    at the next separator. *)
Lemma str_segs_head (p : path) :
  PurePath.str_segs p = ""
  \/ exists s, PurePath.str_segs p = String PurePath.sep s.
Proof. destruct p as [|x p]; [by left|right]. by eexists. Qed.

Lemma str_segs_cons (x : string) (p : path) :
  PurePath.str_segs (x :: p)
  = String PurePath.sep (x +:+ PurePath.str_segs p).
Proof. reflexivity. Qed.

Lemma segment_prefix_last (x h t : string) :
  Str.contains PurePath.sep x = false ->
  t = "" \/ (exists s, t = String PurePath.sep s) ->
  Str.startswith (h +:+ t) x = Str.startswith h x.
Proof.
  intros Hx Ht. revert h. induction x as [|c x IH]; intros h; [done|].
  rewrite contains_cons in Hx. apply orb_false_iff in Hx as [Hc Hx].
  destruct h as [|d h].
  - rewrite append_nil_l. destruct Ht as [->|[s ->]]; [done|].
    by rewrite startswith_cons, Hc.
  - by rewrite append_cons, !startswith_cons, IH.
Qed.

Lemma segment_prefix_mid (a h t s : string) :
  Str.contains PurePath.sep a = false ->
  Str.contains PurePath.sep h = false ->
  t = "" \/ (exists s', t = String PurePath.sep s') ->
  Str.startswith (h +:+ t) (a +:+ String PurePath.sep s) = true
  <-> h = a /\ Str.startswith t (String PurePath.sep s) = true.
Proof.
  intros Ha Hh Ht. revert h Hh. induction a as [|c a IH]; intros h Hh.
  - rewrite append_nil_l. destruct h as [|d h].
    { rewrite append_nil_l. split; [by intros ?|by intros [_ ?]]. }
    rewrite contains_cons in Hh. apply orb_false_iff in Hh as [Hd _].
    rewrite append_cons, startswith_cons, Ascii.eqb_sym, Hd. by split; [|intros []].
  - rewrite contains_cons in Ha. apply orb_false_iff in Ha as [Hc Ha].
    rewrite append_cons. destruct h as [|d h].
    + rewrite append_nil_l. split; [|by intros []].
      destruct Ht as [->|[s' ->]]; [done|].
      by rewrite startswith_cons, Hc.
    + rewrite contains_cons in Hh. apply orb_false_iff in Hh as [_ Hh].
      rewrite append_cons, startswith_cons, andb_true_iff, Ascii.eqb_eq.
      rewrite (IH Ha h Hh). split.
      * by intros [-> [-> ?]].
      * by intros [[= -> ->] ?].
Qed.

Lemma valid_no_sep (p : path) :
  Forall (fun x => valid_name x = true) p ->
  Forall (fun x => Str.contains PurePath.sep x = false) p.
Proof.
  intros Hp. eapply Forall_impl; [exact Hp|].
  by intros x (_ & _ & _ & ?)%valid_name_inv.
Qed.

(** The text of [q] begins with the text of [r ++ [x]] exactly when
    [q] lies under [r] and its next segment begins with [x]. *)
Lemma str_segs_prefix (r : path) (x : string) (q : path) :
  Forall (fun x => Str.contains PurePath.sep x = false) (r ++ [x]) ->
  Forall (fun x => Str.contains PurePath.sep x = false) q ->
  Str.startswith (PurePath.str_segs q) (PurePath.str_segs (r ++ [x])) = true
  <-> exists y rest, q = r ++ (x +:+ y) :: rest.
Proof.
  revert q. induction r as [|a r IH]; intros q Hroot Hq.
  - apply Forall_cons in Hroot as [Hx _].
    destruct q as [|h t].
    { split; [done|]. by intros (y & rest & ?). }
    apply Forall_cons in Hq as [Hh Ht]. simpl app.
    rewrite !str_segs_cons, startswith_cons, Ascii.eqb_refl. simpl andb.
    change (PurePath.str_segs []) with "". rewrite append_nil_r.
    rewrite segment_prefix_last by (done || apply str_segs_head).
    rewrite startswith_spec. split.
    + intros [y ->]. by exists y, t.
    + intros (y & rest & [= -> ->]). by exists y.
  - apply Forall_cons in Hroot as [Ha Hroot].
    destruct q as [|h t].
    { split; [done|]. by intros (y & rest & ?). }
    apply Forall_cons in Hq as [Hh Ht].
    change ((a :: r) ++ [x]) with (a :: (r ++ [x])).
    rewrite !str_segs_cons, startswith_cons, Ascii.eqb_refl. simpl andb.
    assert (exists s, PurePath.str_segs (r ++ [x]) = String PurePath.sep s)
      as [s He] by (destruct r; by eexists).
    rewrite He, segment_prefix_mid by (done || apply str_segs_head).
    rewrite <- He, (IH t) by done.
    split.
    + intros [-> (y & rest & ->)]. by exists y, rest.
    + intros (y & rest & [= -> ->]). eauto.
Qed.

Lemma startswith_str_iff (r : path) (x : string) (q : path) :
  Forall (fun x => valid_name x = true) (r ++ [x]) ->
  Forall (fun x => valid_name x = true) q ->
  Str.startswith (PurePath.str q) (PurePath.str (r ++ [x])) = true
  <-> exists y rest, q = r ++ (x +:+ y) :: rest.
Proof.
  intros Hroot Hq.
  assert (Hstr : PurePath.str (r ++ [x]) = PurePath.str_segs (r ++ [x]))
    by by destruct r.
  destruct q as [|h t].
  - split; [|by intros (y & rest & ?%app_cons_not_nil)].
    rewrite Hstr. destruct r as [|a r]; simpl app.
    + apply Forall_cons in Hroot as [(Hx & _)%valid_name_inv _].
      destruct x; [done|]. by rewrite str_segs_cons, append_cons.
    + apply Forall_cons in Hroot as [(Ha & _)%valid_name_inv _].
      destruct a; [done|]. by rewrite str_segs_cons, append_cons.
  - rewrite Hstr. apply str_segs_prefix; by apply valid_no_sep.
Qed.

End PrefixTest.

(** ** Download: every answer, and the requests that are served *)

Section DownloadMore.
Context `{Platform}.
Variable target_directory : path.

(** X1: the answers of the download handler.  It streams the resolved
    path, under its base name and as ["application/octet-stream"],
    when that path passed the test on strings, existed and was a
    regular file when the handler looked; it answers 400 when the test
    fails, 404 when the test passes and the file is not there or is no
    regular file, and 500 with the message of the exception when the
    path cannot be resolved or when one of the two looks at the file
    raises.  Nothing else is answered. *)
Theorem download_file_answers file_path w :
  let answer := serve (download_file target_directory file_path) w in
  let resolved :=
    realpath (w_fs w) (PurePath.joinpath target_directory file_path) in
  let passes q :=
    Str.startswith (PurePath.str q) (PurePath.str target_directory) in
  let there q := exists_at (w_fs (tick w)) q in
  let file q := is_file_at (w_fs (tick (tick w))) q in
  (exists q, resolved = inr q /\ passes q = true
             /\ there q = true /\ file q = true
             /\ answer = FileResponse q (PurePath.name q)
                                      "application/octet-stream")
  \/ (exists q, resolved = inr q /\ passes q = false
                /\ answer = ErrorResponse 400 "Caminho inválido")
  \/ (exists q, resolved = inr q /\ passes q = true
                /\ (there q = false \/ there q = true /\ file q = false)
                /\ answer = ErrorResponse 404 "Arquivo não encontrado")
  \/ (exists e,
        (resolved = inl e
         \/ exists q, resolved = inr q /\ passes q = true
                      /\ (there q = Raised e
                          \/ there q = true /\ file q = Raised e))
        /\ answer = ErrorResponse 500 (str_exn e)).
Proof.
  intros answer resolved passes there file.
  subst answer resolved passes there file. simpl.
  destruct (realpath (w_fs w) (PurePath.joinpath target_directory file_path))
    as [e|q] eqn:Hq.
  - do 3 right. exists e. split; [by left|].
    by apply download_unresolved.
  - rewrite (download_resolved _ _ _ _ Hq).
    destruct (Str.startswith _ _) eqn:Hs; simpl; [|right; left; eauto].
    destruct (exists_at _ q) as [[]|e] eqn:He.
    + destruct (is_file_at _ q) as [[]|e] eqn:Hf.
      * left. eauto 10.
      * do 2 right; left. eauto 10.
      * do 3 right. exists e. split; [|done]. right. eauto 10.
    + do 2 right; left. eauto 10.
    + do 3 right. exists e. split; [|done]. right. eauto 10.
Qed.

(** X2: with the root [r/x], a request whose path resolves is refused
    with 400 exactly when the resolved path does not lie under [r]
    with a next segment that begins with the text [x]. *)
Theorem download_refused_iff (r : path) (x file_path : string) w q :
  Forall (fun x => valid_name x = true) (r ++ [x]) ->
  realpath (w_fs w) (PurePath.joinpath (r ++ [x]) file_path) = inr q ->
  serve (download_file (r ++ [x]) file_path) w
    = ErrorResponse 400 "Caminho inválido"
  <-> ~ exists y rest, q = r ++ (x +:+ y) :: rest.
Proof.
  intros Hroot Hq.
  assert (Hvalid : Forall (fun x => valid_name x = true) q).
  { eapply realpath_valid; [|exact Hq]. by apply joinpath_ok. }
  rewrite (download_resolved _ _ _ _ Hq).
  rewrite <- (startswith_str_iff r x q Hroot Hvalid).
  destruct (Str.startswith _ _); simpl.
  - split; [|done].
    destruct (exists_at _ q) as [[]|]; try done.
    by destruct (is_file_at _ q) as [[]|].
  - split; [by intros _ ?|done].
Qed.








End DownloadMore.

(** ** Listing: what is reported, and what can be downloaded *)

Section ListingMore.
Context `{Platform}.
Variable target_directory : path.



Lemma nothing_below fs :
  (forall rel, rel <> [] -> fs !! (target_directory ++ rel) = None) ->
  below fs target_directory = [].
Proof.
  intros Hnone.
  destruct (below fs target_directory) as [|rel l] eqn:Hb; [done|].
  assert (Hin : rel ∈ below fs target_directory)
    by (rewrite Hb; apply list_elem_of_here).
  apply elem_of_below in Hin as [Hne [n Hn]].
  by rewrite (Hnone rel Hne) in Hn.
Qed.

Lemma list_files_nothing fs :
  fs_wf fs -> is_dir_node (node_at fs target_directory) = true ->
  below fs target_directory = [] ->
  serve (list_files target_directory) (quiet fs) = JSONResponse [].
Proof.
  intros Hwf Hroot Hnone. rewrite list_files_run. unfold bind.
  by rewrite rglob_stored, Hnone.
Qed.






(** X6: a root that is no directory when the request comes, and a root
    that holds nothing, both list as an empty array, with status 200. *)
Theorem list_files_empty fs :
  (is_dir_at fs target_directory = false ->
   serve (list_files target_directory) (quiet fs) = JSONResponse [])
  /\ (fs_wf fs -> is_dir_node (node_at fs target_directory) = true ->
      (forall rel, rel <> [] -> fs !! (target_directory ++ rel) = None) ->
      serve (list_files target_directory) (quiet fs) = JSONResponse []).
Proof.
  split.
  - intros Hno. rewrite list_files_run. unfold bind.
    rewrite rglob_run. change (w_fs (quiet fs)) with fs. by rewrite Hno.
  - intros Hwf Hroot Hnone.
    by apply list_files_nothing, nothing_below.
Qed.


Lemma replace_removes (old new : ascii) (s : string) :
  Ascii.eqb new old = false ->
  Str.contains old (Str.replace old new s) = false.
Proof.
  intros Hne. induction s as [|c s IH]; [done|].
  simpl. rewrite IH, orb_false_r.
  by destruct (Ascii.eqb c old) eqn:Hc.
Qed.

Lemma list_files_body_slashes files_info p w files_info' w' :
  Forall (fun r => Str.contains "\" (subdirectory r) = false) files_info ->
  list_files_body target_directory files_info p w = (inr files_info', w') ->
  Forall (fun r => Str.contains "\" (subdirectory r) = false) files_info'.
Proof.
  intros Hall. unfold list_files_body, bind. rewrite is_file_run.
  destruct (is_file_at (w_fs w) p) as [[]|e]; unfold outcome;
    [|by intros [= <- _]|done].
  rewrite stat_run.
  destruct (posix_stat _ p) as [e|st]; [done|].
  unfold of_result.
  destruct (isoformat (st_ctime st)); [done|].
  destruct (isoformat (st_mtime st)); [done|].
  unfold Path.relative_to.
  destruct (PurePath.relative_to p target_directory) as [rel|]; [|done].
  intros [= <- _]. apply Forall_app. split; [done|].
  apply Forall_singleton. cbn [subdirectory].
  destruct (negb _); [|done]. by apply replace_removes.
Qed.

(** X11: whatever happens to the tree during the request, no
    [subdirectory] of a listing holds a backslash. *)
Theorem list_files_subdirectory_slashes w files r :
  serve (list_files target_directory) w = JSONResponse files ->
  r ∈ files ->
  Str.contains "\" (subdirectory r) = false.
Proof.
  intros Hlist Hr. rewrite list_files_run in Hlist. unfold bind in Hlist.
  destruct (Path.rglob target_directory w) as [[e|paths] w1]; [done|].
  destruct (for_each paths _ [] w1) as [[e|files_info] w2] eqn:Hloop; [done|].
  injection Hlist as <-.
  assert (Hinv : forall paths acc w acc' w',
             Forall (fun r => Str.contains "\" (subdirectory r) = false) acc ->
             for_each paths (list_files_body target_directory) acc w
               = (inr acc', w') ->
             Forall (fun r => Str.contains "\" (subdirectory r) = false) acc').
  { clear. induction paths as [|p paths IH]; intros acc w acc' w' Hall; simpl.
    { by intros [= <- _]. }
    unfold bind.
    destruct (list_files_body _ _ _ _) as [[e|acc1] w1] eqn:Hbody; [done|].
    apply IH. by eapply list_files_body_slashes. }
  apply (Hinv _ _ _ _ _ (Forall_nil_2 _)) in Hloop.
  by apply (proj1 (Forall_forall _ _) Hloop).
Qed.

End ListingMore.

(** ** Start-up: what it leaves to the handlers *)

Section StartupMore.
Context `{Platform}.


End StartupMore.

(** ** The handlers on the sample trees *)

Section Samples.

#[local] Existing Instance Sample.platform.



Lemma emptyb_correct fs d :
  emptyb fs d = true -> forall rel, rel <> [] -> fs !! (d ++ rel) = None.
Proof.
  unfold emptyb. intros Hb rel Hne.
  destruct (fs !! (d ++ rel)) as [n|] eqn:Hn; [|done].
  assert (Hin : rel ∈ below fs d) by (apply elem_of_below; eauto).
  destruct (below fs d); [by apply elem_of_nil in Hin|done].
Qed.

(** C1: the request [../foobar/secret.txt] under the root
    [/data/foo] resolves to [/data/foobar/secret.txt], outside the
    root, and the file is streamed all the same: the text of the
    sibling's path begins with the text of the root's. *)
Theorem download_sibling_prefix :
  let answer :=
    serve (download_file Sample.root "../foobar/secret.txt")
          (quiet Sample.fs) in
  realpath Sample.fs (PurePath.joinpath Sample.root "../foobar/secret.txt")
    = inr ["data"; "foobar"; "secret.txt"]
  /\ PurePath.is_under Sample.root ["data"; "foobar"; "secret.txt"] = false
  /\ answer = FileResponse ["data"; "foobar"; "secret.txt"] "secret.txt"
                           "application/octet-stream"
  /\ body_of Sample.fs answer = Some Sample.secret.
Proof. vm_compute. auto. Qed.

(** C9: the request [link] names a symbolic link in the root
    [/data/foo] whose target [/data/foobar/secret.txt] lies outside
    the root, and the target is streamed. *)
Theorem download_link_to_sibling :
  let answer :=
    serve (download_file Sample.root "link") (quiet Sample.fs_link_sibling) in
  Sample.fs_link_sibling !! (Sample.root ++ ["link"])
    = Some (Symlink "/data/foobar/secret.txt")
  /\ PurePath.is_under Sample.root ["data"; "foobar"; "secret.txt"] = false
  /\ answer = FileResponse ["data"; "foobar"; "secret.txt"] "secret.txt"
                           "application/octet-stream"
  /\ body_of Sample.fs_link_sibling answer = Some Sample.secret.
Proof. vm_compute. auto. Qed.

(** C2 fails: [b.txt] is removed between the test and the [stat];
    the answer is an error, not the listing of [a.txt], which is
    still there. *)
Lemma list_files_race_aborts :
  is_file_at (w_fs Sample.race) (Sample.srv ++ ["b.txt"]) = true
  /\ serve (list_files Sample.srv) Sample.race =
       ErrorResponse 500
         "[Errno 2] No such file or directory: '/srv/files/b.txt'"
  /\ is_file_at (delete ["srv"; "files"; "b.txt"] Sample.fs_two)
                (Sample.srv ++ ["a.txt"]) = true.
Proof. vm_compute. auto. Qed.

(** C3 fails: the request of a name of 256 bytes resolves to a path
    inside the root at which nothing is stored, and the answer is
    500, not 404: the system refuses to look the name up, and
    [exists] raises. *)
Lemma download_name_too_long :
  String.length Sample.long_name = 256
  /\ realpath Sample.fs (PurePath.joinpath Sample.root Sample.long_name)
     = inr (Sample.root ++ [Sample.long_name])
  /\ PurePath.is_under Sample.root (Sample.root ++ [Sample.long_name]) = true
  /\ Sample.fs !! (Sample.root ++ [Sample.long_name]) = None
  /\ serve (download_file Sample.root Sample.long_name) (quiet Sample.fs)
     = ErrorResponse 500
         ("[Errno 36] File name too long: '/data/foo/"
          +:+ Sample.long_name +:+ "'").
Proof. vm_compute. auto 10. Qed.



(** C7 fails: the root [/srv/files] is missing, and the answer is
    200 with an empty array. *)
Lemma list_files_missing_root :
  node_at Sample.home Sample.srv = None
  /\ node_at Sample.home ["srv"] = None
  /\ serve (list_files Sample.srv) (quiet Sample.home) = JSONResponse []
  /\ status_of (serve (list_files Sample.srv) (quiet Sample.home)) = 200%Z.
Proof. vm_compute. auto. Qed.

Lemma download_not_found_witness :
  serve (download_file Sample.root "sub") (quiet Sample.fs)
    = ErrorResponse 404 "Arquivo não encontrado"
  /\ serve (download_file Sample.root "missing.txt") (quiet Sample.fs)
     = ErrorResponse 404 "Arquivo não encontrado"
  /\ serve (download_file Sample.root Sample.long_name) (quiet Sample.fs)
     = ErrorResponse 500
         ("[Errno 36] File name too long: '/data/foo/"
          +:+ Sample.long_name +:+ "'")
  /\ serve (download_file Sample.root "../../etc/shadow") (quiet Sample.fs)
     = ErrorResponse 400 "Caminho inválido".
Proof.
  split_and!.
  - apply (proj1 (proj1 (download_not_found Sample.root Sample.fs "sub"
                           ["data"; "foo"; "sub"]
                           ltac:(vm_compute; reflexivity))
                    ltac:(vm_compute; reflexivity))).
    right. vm_compute. reflexivity.
  - apply (proj1 (proj1 (download_not_found Sample.root Sample.fs
                           "missing.txt" ["data"; "foo"; "missing.txt"]
                           ltac:(vm_compute; reflexivity))
                    ltac:(vm_compute; reflexivity))).
    left. vm_compute. reflexivity.
  - etrans.
    + apply (proj2 (proj1 (download_not_found Sample.root Sample.fs
                             Sample.long_name
                             (Sample.root ++ [Sample.long_name])
                             ltac:(vm_compute; reflexivity))
                      ltac:(vm_compute; reflexivity)) ENAMETOOLONG);
        [vm_compute; reflexivity|done..].
    + vm_compute. reflexivity.
  - apply (proj2 (download_not_found Sample.root Sample.fs "../../etc/shadow"
                    ["etc"; "shadow"] ltac:(vm_compute; reflexivity))).
    vm_compute. reflexivity.
Defined.

Lemma download_empty_path_witness :
  serve (download_file Sample.root "") (quiet Sample.fs)
    = ErrorResponse 404 "Arquivo não encontrado".
Proof.
  apply download_empty_path;
    [apply fs_wfb_correct; vm_compute; reflexivity | vm_compute; reflexivity].
Defined.



Lemma list_files_walk_fails_witness :
  serve (list_files Sample.srv) (quiet Sample.home) = JSONResponse []
  /\ serve (list_files Sample.srv) Sample.root_removed =
       ErrorResponse 500 "[Errno 2] No such file or directory: '/srv/files'".
Proof.
  split.
  - apply (proj1 (list_files_walk_fails Sample.srv (quiet Sample.home))).
    vm_compute. reflexivity.
  - apply (proj1 (proj2 (list_files_walk_fails Sample.srv Sample.root_removed))
             ENOENT);
      vm_compute; reflexivity.
Defined.

Lemma list_files_entry_vanishes_witness :
  serve (list_files Sample.srv) Sample.race_early = JSONResponse [Sample.a_txt]
  /\ serve (list_files Sample.srv) Sample.race =
       ErrorResponse 500
         "[Errno 2] No such file or directory: '/srv/files/b.txt'".
Proof.
  split.
  - etrans.
    + apply (proj1 (list_files_entry_vanishes Sample.srv Sample.race_early
                      [] ["srv"; "files"; "b.txt"]
                      [["srv"; "files"; "a.txt"]] []
                      ltac:(vm_compute; reflexivity)
                      ltac:(vm_compute; reflexivity))).
      vm_compute. reflexivity.
    + vm_compute. reflexivity.
  - apply (proj2 (list_files_entry_vanishes Sample.srv Sample.race
                    [] ["srv"; "files"; "b.txt"] [["srv"; "files"; "a.txt"]] []
                    ltac:(vm_compute; reflexivity)
                    ltac:(vm_compute; reflexivity)) ENOENT);
      vm_compute; reflexivity.
Defined.



Lemma download_refused_iff_witness :
  serve (download_file (["data"] ++ ["foo"]) "../../etc/passwd")
        (quiet Sample.fs)
    = ErrorResponse 400 "Caminho inválido".
Proof.
  apply (proj2 (download_refused_iff ["data"] "foo" "../../etc/passwd"
                  (quiet Sample.fs) ["etc"; "passwd"]
                  ltac:(repeat constructor)
                  ltac:(vm_compute; reflexivity))).
  intros (y & rest & Heq). discriminate Heq.
Defined.




Lemma list_files_empty_witness :
  serve (list_files Sample.srv) (quiet Sample.home) = JSONResponse []
  /\ serve (list_files Sample.srv) (quiet Sample.fs_empty_root)
     = JSONResponse [].
Proof.
  split.
  - apply (proj1 (list_files_empty Sample.srv Sample.home)).
    vm_compute. reflexivity.
  - apply (proj2 (list_files_empty Sample.srv Sample.fs_empty_root));
      [apply fs_wfb_correct; vm_compute; reflexivity
      | vm_compute; reflexivity
      | apply emptyb_correct; vm_compute; reflexivity].
Defined.




Lemma list_files_subdirectory_slashes_witness :
  Sample.x_txt ∈ Sample.listing Sample.root Sample.fs_backslash
  /\ Str.contains "\" (subdirectory Sample.x_txt) = false.
Proof.
  assert (Hin : Sample.x_txt ∈ Sample.listing Sample.root Sample.fs_backslash).
  { vm_compute. repeat constructor. }
  split; [exact Hin|].
  apply (list_files_subdirectory_slashes Sample.root
           (quiet Sample.fs_backslash)
           (Sample.listing Sample.root Sample.fs_backslash) Sample.x_txt);
    [vm_compute; reflexivity | exact Hin].
Defined.

(** [resolve] reads the links one by one and is not held to the
    kernel's limit: through a chain of 41 links, which [stat] gives
    up on, the file at the end is served. *)
Lemma download_through_chain :
  os_stat Sample.fs_chain (Sample.root ++ ["l0"]) = inl ELOOP
  /\ serve (download_file Sample.root "l0") (quiet Sample.fs_chain)
     = FileResponse (Sample.root ++ ["report.pdf"]) "report.pdf"
                    "application/octet-stream".
Proof. by vm_compute. Qed.

End Samples.
